(** * Chat session controller of the local AI assistant front end

    A shallow embedding of the React client:
    - [frontend/src/components/Chat.jsx]: [sendQuery], [escapeHtml],
      [stripHtml], [cancelRequest];
    - [App.jsx]: [addMessage], [replaceLastAssistant], [setSourceList];
    - [Sources.jsx]: the filter of the source panel.

    JavaScript strings are modelled as [string]; the characters the code
    inspects (the five HTML specials, the letters of the markers) are all
    ASCII.  A value that may be [null] or [undefined] is an [option].  The
    built-in [String.prototype.toLowerCase] of the source filter is a
    parameter. *)

From Stdlib Require Import Ascii String Arith Lia.
From stdpp Require Import base list strings.

(** String concatenation unfolds on a literal or a constructor. *)
#[local] Arguments String.append !s1 s2 : simpl nomatch.

(** ** JavaScript string primitives *)

(** The double-quote character, code 34. *)
Definition dquote : ascii := Eval cbv in Ascii.ascii_of_nat 34.

(** [!s] on a string: only the empty string is falsy. *)
Definition truthy (s : string) : bool :=
  match s with
  | EmptyString => false
  | String _ _ => true
  end.

(** [x || ''] on a string that may be missing. *)
Definition orEmpty (x : option string) : string :=
  match x with
  | Some s => if truthy s then s else ""
  | None => ""
  end.

(** [s.startsWith(q)]. *)
Fixpoint startsWith (s q : string) {struct q} : bool :=
  match q with
  | EmptyString => true
  | String a q' =>
      match s with
      | EmptyString => false
      | String b s' => Ascii.eqb a b && startsWith s' q'
      end
  end.

(** [s.includes(q)]: [q] occurs at some position of [s]. *)
Fixpoint includes (s q : string) : bool :=
  startsWith s q ||
  match s with
  | EmptyString => false
  | String _ s' => includes s' q
  end.

(** [toLowerCase] on an ASCII character: the letters A to Z move by 32. *)
Definition asciiLowerChar (c : ascii) : ascii :=
  let n := Ascii.nat_of_ascii c in
  if Nat.leb 65 n && Nat.leb n 90 then Ascii.ascii_of_nat (n + 32) else c.

(** [s.toLowerCase()] for a string [s] of ASCII characters.  On other
    strings the built-in is not modelled: the source panel below takes it
    as a parameter. *)
Fixpoint asciiLowerCase (s : string) : string :=
  match s with
  | EmptyString => ""
  | String c s' => String (asciiLowerChar c) (asciiLowerCase s')
  end.

(** A string of ASCII characters. *)
Fixpoint isAscii (s : string) : bool :=
  match s with
  | EmptyString => true
  | String c s' => Nat.ltb (Ascii.nat_of_ascii c) 128 && isAscii s'
  end.

(** ** Escaping and stripping markup (Chat.jsx) *)

(** The object literal of [escapeHtml], applied to one matched character;
    a character outside the class (ampersand, angle brackets, double and
    single quote) is kept. *)
Definition escapeChar (c : ascii) : string :=
  if Ascii.eqb c "&" then "&amp;"
  else if Ascii.eqb c "<" then "&lt;"
  else if Ascii.eqb c ">" then "&gt;"
  else if Ascii.eqb c dquote then "&quot;"
  else if Ascii.eqb c "'" then "&#039;"
  else String c "".

(** [text.replace(re, c => table[c])] with [re] the global class of the
    five characters above. *)
Fixpoint replaceSpecials (text : string) : string :=
  match text with
  | EmptyString => ""
  | String c rest => escapeChar c +:+ replaceSpecials rest
  end.

(** [escapeHtml(text)]: [if (!text) return ''], then the replacement. *)
Definition escapeHtml (text : option string) : string :=
  match text with
  | None => ""
  | Some s => if truthy s then replaceSpecials s else ""
  end.

(** [html.replace(/<[^>]*>/g, '')], read as a scanner.  [tag = None]: outside
    a match.  [tag = Some buf]: a [<] was seen and [buf] holds the text from
    it on; the match completes at the first [>], and when the input ends
    first nothing from that [<] on can match, so [buf] is kept as it is. *)
Fixpoint stripTags (tag : option string) (html : string) : string :=
  match html with
  | EmptyString =>
      match tag with
      | None => ""
      | Some buf => buf
      end
  | String c rest =>
      match tag with
      | None =>
          if Ascii.eqb c "<" then stripTags (Some "<") rest
          else String c (stripTags None rest)
      | Some buf =>
          if Ascii.eqb c ">" then stripTags None rest
          else stripTags (Some (buf +:+ String c "")) rest
      end
  end.

(** [stripHtml(html)]. *)
Definition stripHtml (html : option string) : string :=
  match html with
  | None => ""
  | Some s => if truthy s then stripTags None s else ""
  end.

(** The markup [sendQuery] stores for a question: [<div>${escapeHtml(q)}</div>]. *)
Definition userMarkup (q : string) : string :=
  "<div>" +:+ escapeHtml (Some q) +:+ "</div>".

(** [c] occurs in [s]. *)
Fixpoint occurs (c : ascii) (s : string) : bool :=
  match s with
  | EmptyString => false
  | String a s' => Ascii.eqb a c || occurs c s'
  end.

(** The five characters [escapeHtml] rewrites. *)
Definition isSpecial (c : ascii) : bool :=
  Ascii.eqb c "&" || Ascii.eqb c "<" || Ascii.eqb c ">"
  || Ascii.eqb c dquote || Ascii.eqb c "'".

(** [s] holds one of the five characters. *)
Fixpoint hasSpecial (s : string) : bool :=
  match s with
  | EmptyString => false
  | String a s' => isSpecial a || hasSpecial s'
  end.

(** [data.markdown.replace(/```(?:text)?\\n?|```/g, '')].  In the regex
    literal the escaped backslash stands for one backslash character, so the
    first alternative is three backticks, an optional [text], a backslash
    and an optional letter n; the second is three backticks alone.
    [fenceLen s] is the length of the match at the start of [s], 0 for none. *)
Definition fenceLen (s : string) : nat :=
  if startsWith s "```" then
    if startsWith s "```text\" then (if startsWith s "```text\n" then 9 else 8)
    else if startsWith s "```\" then (if startsWith s "```\n" then 5 else 4)
    else 3
  else 0.

(** The global replacement by the empty string: [skip] characters of a match
    are still to be dropped. *)
Fixpoint dropFences (skip : nat) (s : string) : string :=
  match s with
  | EmptyString => ""
  | String c rest =>
      match skip with
      | S k => dropFences k rest
      | O =>
          match fenceLen s with
          | O => String c (dropFences 0 rest)
          | S k => dropFences k rest
          end
      end
  end.

(** ** Data model *)

Inductive Role : Set := user | assistant.

#[global] Instance Role_eq_dec : EqDecision Role.
Proof. solve_decision. Defined.

(** A chat message.  The greeting the session starts with has no [time]. *)
Record Message : Set := {
  role : Role;
  content : string;
  time : option string
}.

(** One file reference of the [/ask] response; every field may be missing. *)
Record Source : Set := {
  name : option string;
  path : option string;
  size_bytes : option nat;
  reason : option string;
  reason_detail : option string;
  file_path : option string
}.

(** The parsed body of an [/ask] response, with the fields the client reads
    at the types of the interface: strings and lists of sources.  A field
    that is missing or [null] is [None]. *)
Record AskResponse : Set := {
  answer : option string;
  markdown : option string;
  resp_sources : option (list Source);
  resp_results : option (list Source)
}.

(** A thrown value, with the two fields [sendQuery] reads in its [catch]. *)
Record JsError : Set := {
  err_name : string;
  err_message : option string
}.

(** ** Session store (App.jsx) *)

Record Store : Set := {
  messages : list Message;
  sources : list Source
}.

(** A one-character string holding the double quote, to write markup. *)
Definition dq : string := String dquote "".

(** The greeting message [App] starts with. *)
Definition greeting : Message :=
  {| role := assistant;
     content :=
       "<div class=" +:+ dq +:+ "greeting-block" +:+ dq +:+ "><strong style="
       +:+ dq +:+ "font-size:18px;display:block;margin-bottom:10px" +:+ dq
       +:+ ">Hello — I'm your Local AI Assistant.</strong><div style=" +:+ dq
       +:+ "font-size:13px;color:#0b1220;line-height:1.5" +:+ dq
       +:+ ">I can search your files, summarize PDFs and text files, preview documents, and open files on your computer. Ask me anything about your files or just chat with me about general topics.</div></div>";
     time := None |}.

(** [useState] initial values of [App]. *)
Definition initStore : Store :=
  {| messages := [greeting]; sources := [] |}.

(** [addMessage(role, content)]; [now] is the clock reading of the call. *)
Definition addMessage (r : Role) (c : string) (now : string) (st : Store) : Store :=
  {| messages := messages st ++ [{| role := r; content := c; time := Some now |}];
     sources := sources st |}.

(** The test of the loop of [replaceLastAssistant]: an assistant message
    whose content includes one of the three marker words. *)
Definition isPending (m : Message) : bool :=
  bool_decide (role m = assistant) &&
  (includes (content m) "Thinking" || includes (content m) "spinner"
   || includes (content m) "Thinking...").

(** [{ ...copy[i], content: newContent, time: now }]. *)
Definition overwrite (m : Message) (newContent now : string) : Message :=
  {| role := role m; content := newContent; time := Some now |}.

(** [{ role: 'assistant', content: newContent, time: now }]. *)
Definition assistantMessage (newContent now : string) : Message :=
  {| role := assistant; content := newContent; time := Some now |}.

(** The loop [for (let i = copy.length - 1; i >= 0; i--)], entered with
    [n = i + 1].  Reading [copy[i]] out of range would make [copy[i].role]
    throw, which is the [None] result. *)
Fixpoint replaceLoop (newContent now : string) (copy : list Message) (n : nat)
  : option (list Message) :=
  match n with
  | O => Some (copy ++ [assistantMessage newContent now])
  | S i =>
      m ← copy !! i;
      if isPending m
      then Some (<[i := overwrite m newContent now]> copy)
      else replaceLoop newContent now copy i
  end.

(** [replaceLastAssistant(newContent)]. *)
Definition replaceLastAssistant (newContent now : string) (st : Store) : option Store :=
  copy ← replaceLoop newContent now (messages st) (length (messages st));
  Some {| messages := copy; sources := sources st |}.

(** [setSourceList(list)]. *)
Definition setSourceList (l : list Source) (st : Store) : Store :=
  {| messages := messages st; sources := l |}.

(** The operations of the store, as a step relation. *)
Inductive store_step : Store -> Store -> Prop :=
| step_add r c now st :
    store_step st (addMessage r c now st)
| step_replace c now st st' :
    replaceLastAssistant c now st = Some st' ->
    store_step st st'
| step_sources l st :
    store_step st (setSourceList l st).

(** Any number of store operations. *)
Inductive store_steps : Store -> Store -> Prop :=
| steps_refl st : store_steps st st
| steps_then st1 st2 st3 :
    store_steps st1 st2 -> store_step st2 st3 -> store_steps st1 st3.

(** ** Chat controller (Chat.jsx) *)

(** The [fetch] call of [sendQuery]: its JSON body and the controller
    whose signal it carries. *)
Record Request : Set := {
  req_query : string;
  req_model : string;
  req_signal : nat
}.

(** The state the controller works on.  [store] is the state of [App] the
    callbacks act on.  [sending], [input], [editingIndex] and [editingText]
    are the state variables of [Chat], with the values the next event
    handler sees (the component is rendered again between two events).
    [signals] is the heap of [AbortController] objects, one [aborted] flag
    per controller, and a controller is referred to by its index; [abortRef]
    is [abortRef.current]; [inflight] holds the requests whose promise is not
    settled; [tick] counts the readings of the clock. *)
Record Chat : Set := {
  store : Store;
  selectedModel : string;
  input : string;
  sending : bool;
  editingIndex : option nat;
  editingText : string;
  abortRef : list nat;
  signals : list bool;
  inflight : list Request;
  tick : nat
}.

(** How the awaited part of [sendQuery] ends: [resp.json()] gives a body, or
    something is thrown. *)
Inductive Outcome : Set :=
| Resolved (data : AskResponse)
| Rejected (e : JsError).

(** What [fetch] throws when its signal is aborted. *)
Definition abortError : JsError :=
  {| err_name := "AbortError"; err_message := Some "The user aborted a request." |}.

(** The placeholder [sendQuery] appends while the request is pending. *)
Definition placeholderMarkup : string :=
  "<div class=" +:+ dq +:+ "loading inline" +:+ dq +:+ "><span class=" +:+ dq
  +:+ "spinner" +:+ dq +:+ "></span>Thinking...</div>".

Definition answerMarkup (a : string) : string :=
  "<div>" +:+ escapeHtml (Some a) +:+ "</div>".

Definition markdownMarkup (md : string) : string :=
  "<pre>" +:+ escapeHtml (Some (dropFences 0 md)) +:+ "</pre>".

Definition cancelNotice : string :=
  "<div class='muted'>Request canceled.</div>".

Definition errorNotice (e : JsError) : string :=
  "<div class='error'>Error: " +:+ escapeHtml (err_message e) +:+ "</div>".

(** [data.sources || data.results || []]. *)
Definition pickSources (data : AskResponse) : list Source :=
  match resp_sources data with
  | Some l => l
  | None =>
      match resp_results data with
      | Some l => l
      | None => []
      end
  end.

(** [abortRef.current.indexOf(controller)] then [splice(idx, 1)]. *)
Fixpoint removeFirst (ctl : nat) (l : list nat) : list nat :=
  match l with
  | [] => []
  | x :: l' => if Nat.eqb x ctl then l' else x :: removeFirst ctl l'
  end.

Section Controller.

(** The display string of the clock at its n-th reading
    ([new Date().toLocaleTimeString()]). *)
Variable clock : nat -> string.

Definition initChat (model : string) : Chat :=
  {| store := initStore; selectedModel := model; input := ""; sending := false;
     editingIndex := None; editingText := ""; abortRef := []; signals := [];
     inflight := []; tick := 0 |}.

Definition withStore (c : Chat) (st : Store) (ticks : nat) : Chat :=
  {| store := st; selectedModel := selectedModel c; input := input c;
     sending := sending c; editingIndex := editingIndex c;
     editingText := editingText c; abortRef := abortRef c;
     signals := signals c; inflight := inflight c; tick := tick c + ticks |}.

(** The store operations as the controller calls them, each reading the
    clock once. *)
Definition doAddMessage (r : Role) (m : string) (c : Chat) : Chat :=
  withStore c (addMessage r m (clock (tick c)) (store c)) 1.

Definition doReplaceLastAssistant (m : string) (c : Chat) : option Chat :=
  st ← replaceLastAssistant m (clock (tick c)) (store c);
  Some (withStore c st 1).

Definition doSetSourceList (l : list Source) (c : Chat) : Chat :=
  withStore c (setSourceList l (store c)) 0.

(** [sendQuery(q)] up to its first [await]: the guard, the new controller,
    the two messages and the [fetch] call. *)
Definition sendQuery_begin (q : string) (c : Chat) : Chat :=
  if negb (truthy q) || sending c then c
  else
    let controller := length (signals c) in
    let c1 :=
      {| store := store c; selectedModel := selectedModel c; input := input c;
         sending := true; editingIndex := editingIndex c;
         editingText := editingText c; abortRef := abortRef c ++ [controller];
         signals := signals c ++ [false]; inflight := inflight c;
         tick := tick c |} in
    let c2 := doAddMessage user (userMarkup q) c1 in
    let c3 := doAddMessage assistant placeholderMarkup c2 in
    {| store := store c3; selectedModel := selectedModel c3; input := input c3;
       sending := sending c3; editingIndex := editingIndex c3;
       editingText := editingText c3; abortRef := abortRef c3;
       signals := signals c3;
       inflight := inflight c3 ++
         [{| req_query := q; req_model := selectedModel c; req_signal := controller |}];
       tick := tick c3 |}.

(** The body of [try] after the [await]s. *)
Definition onResolved (data : AskResponse) (c : Chat) : option Chat :=
  c1 ← match answer data with
       | Some a =>
           if truthy a then doReplaceLastAssistant (answerMarkup a) c else Some c
       | None => Some c
       end;
  let c2 :=
    match markdown data with
    | Some md =>
        if truthy md then doAddMessage assistant (markdownMarkup md) c1 else c1
    | None => c1
    end in
  Some (doSetSourceList (pickSources data) c2).

(** The [catch] block. *)
Definition onRejected (e : JsError) (c : Chat) : option Chat :=
  if String.eqb (err_name e) "AbortError"
  then doReplaceLastAssistant cancelNotice c
  else doReplaceLastAssistant (errorNotice e) c.

(** The [finally] block of the call that created [controller]. *)
Definition onFinally (controller : nat) (c : Chat) : Chat :=
  {| store := store c; selectedModel := selectedModel c; input := input c;
     sending := false; editingIndex := None; editingText := "";
     abortRef := removeFirst controller (abortRef c);
     signals := signals c;
     inflight := List.filter (fun r => negb (Nat.eqb (req_signal r) controller)) (inflight c);
     tick := tick c |}.

(** [sendQuery] from the point its request settles. *)
Definition sendQuery_settle (controller : nat) (o : Outcome) (c : Chat) : option Chat :=
  c1 ← match o with
       | Resolved data => onResolved data c
       | Rejected e => onRejected e c
       end;
  Some (onFinally controller c1).

(** [cancelRequest()]: abort every controller of the list, then empty the
    list and clear the flag. *)
Definition cancelRequest (c : Chat) : Chat :=
  {| store := store c; selectedModel := selectedModel c; input := input c;
     sending := false; editingIndex := editingIndex c;
     editingText := editingText c; abortRef := [];
     signals := fold_left (fun sg ctl => <[ctl := true]> sg) (abortRef c) (signals c);
     inflight := inflight c;
     tick := tick c |}.

(** Cancelling while the request of [controller] is pending: [cancelRequest],
    then the aborted [fetch] rejects and [sendQuery] runs its [catch] and
    [finally]. *)
Definition cancelPending (controller : nat) (c : Chat) : option Chat :=
  sendQuery_settle controller (Rejected abortError) (cancelRequest c).

End Controller.

(** ** Source panel (Sources.jsx) *)

Section SourcePanel.

(** [String.prototype.toLowerCase]. *)
Variable toLowerCase : string -> string.

(** The predicate given to [sources.filter]. *)
Definition matchesFilter (filter : string) (s : Source) : bool :=
  if negb (truthy filter) then true
  else
    let q := toLowerCase filter in
    includes (toLowerCase (orEmpty (name s))) q
    || includes (toLowerCase (orEmpty (path s))) q
    || includes (toLowerCase (orEmpty (reason_detail s))) q.

(** The entries the panel renders, in list order. *)
Definition visibleSources (filter : string) (l : list Source) : list Source :=
  List.filter (matchesFilter filter) l.

End SourcePanel.

(** ** Words of the specification, for the source filter *)

(** [field] contains [f] as a case-insensitive substring: once both are in
    lower case, [f] is a segment of [field]. *)
Definition containsCI (toLowerCase : string -> string) (field f : string) : Prop :=
  exists pre post, toLowerCase field = pre +:+ toLowerCase f +:+ post.

(** An entry whose name, path or reason detail contains [f]. *)
Definition specVisible (toLowerCase : string -> string) (f : string) (s : Source)
  : Prop :=
  containsCI toLowerCase (orEmpty (name s)) f
  \/ containsCI toLowerCase (orEmpty (path s)) f
  \/ containsCI toLowerCase (orEmpty (reason_detail s)) f.

(** [shown] is [l] without the entries that do not satisfy [P]: the same
    entries, as many times, in the same order. *)
Inductive keepsExactly (P : Source -> Prop) : list Source -> list Source -> Prop :=
| keeps_nil : keepsExactly P [] []
| keeps_shown s l shown :
    P s -> keepsExactly P l shown -> keepsExactly P (s :: l) (s :: shown)
| keeps_hidden s l shown :
    ~ P s -> keepsExactly P l shown -> keepsExactly P (s :: l) shown.

(** A lower-casing that is the A to Z folding on the strings of ASCII
    characters, as [String.prototype.toLowerCase] is. *)
Definition agreesOnAscii (toLowerCase : string -> string) : Prop :=
  forall s, isAscii s = true -> toLowerCase s = asciiLowerCase s.

(** ** Words of the specification, for the message sequence *)

(** Every message of [old] is still at its index in [new], with its role,
    and unchanged when it is a user message. *)
Definition keepsExisting (old new : list Message) : Prop :=
  forall i m, old !! i = Some m ->
    exists m', new !! i = Some m' /\ role m' = role m /\ (role m = user -> m' = m).

(** No message of [l] carries the pending marker. *)
Definition nonePending (l : list Message) : Prop :=
  Forall (fun m => isPending m = false) l.

(** The message the [markdown] field of a response adds, if any. *)
Definition markdownMessages (data : AskResponse) (now : string) : list Message :=
  match markdown data with
  | Some md => if truthy md then [assistantMessage (markdownMarkup md) now] else []
  | None => []
  end.

(** Every controller of the list is an object of the heap. *)
Definition wellFormed (c : Chat) : Prop :=
  Forall (fun k => k < length (signals c)) (abortRef c).

(** ** Sample data *)

Definition sampleClock (n : nat) : string :=
  if Nat.even n then "10:15:00" else "10:15:01".

Definition sampleSource (n p : string) (detail : option string) : Source :=
  {| name := Some n; path := Some p; size_bytes := Some 2048;
     reason := Some "filename"; reason_detail := detail; file_path := None |}.

Definition summaryTxt : Source :=
  sampleSource "summary.txt" "/docs/summary.txt" (Some "mentions the Budget").

Definition budgetXlsx : Source :=
  sampleSource "budget.xlsx" "/finance/budget.xlsx" None.

Definition sampleSources : list Source := [summaryTxt; budgetXlsx].

(** The session after one question has been sent and is pending. *)
Definition pendingChat : Chat :=
  sendQuery_begin sampleClock "where is the budget?" (initChat "tinyllama").

(** A response whose answer is the empty string. *)
Definition emptyAnswer : AskResponse :=
  {| answer := Some ""; markdown := None;
     resp_sources := Some sampleSources; resp_results := None |}.

(** A response with an answer and sources. *)
Definition fullAnswer : AskResponse :=
  {| answer := Some "See budget.xlsx"; markdown := None;
     resp_sources := Some sampleSources; resp_results := None |}.

(** A response with no answer, only results. *)
Definition noAnswer : AskResponse :=
  {| answer := None; markdown := Some "```text\nnothing found```";
     resp_sources := None; resp_results := Some [budgetXlsx] |}.

(** ** The rest of the client *)

(** *** Chat.jsx: the toolbar and the edit in place *)

(** The loop of [lastUserIndex], [for (let j = messages.length - 1; j >= 0; j--)],
    entered with [n = j + 1].  The test [messages[j] && ...] skips an entry
    that is missing; the result after the loop is [-1]. *)
Fixpoint lastUserLoop (msgs : list Message) (n : nat) : Z :=
  match n with
  | O => (-1)%Z
  | S j =>
      match msgs !! j with
      | Some m =>
          if bool_decide (role m = user) then Z.of_nat j else lastUserLoop msgs j
      | None => lastUserLoop msgs j
      end
  end.

Definition lastUserIndex (msgs : list Message) : Z :=
  lastUserLoop msgs (length msgs).

(** [i === lastUserIndex && m.role === 'user']: the message at [i] gets the
    copy and edit buttons. *)
Definition showsToolbar (msgs : list Message) (i : nat) (m : Message) : bool :=
  Z.eqb (Z.of_nat i) (lastUserIndex msgs) && bool_decide (role m = user).

(** [handleEditClick(i, m)]. *)
Definition handleEditClick (i : nat) (m : Message) (c : Chat) : Chat :=
  {| store := store c; selectedModel := selectedModel c; input := input c;
     sending := sending c; editingIndex := Some i;
     editingText := stripHtml (Some (content m)); abortRef := abortRef c;
     signals := signals c; inflight := inflight c; tick := tick c |}.

(** [handleEditCancel()]. *)
Definition handleEditCancel (c : Chat) : Chat :=
  {| store := store c; selectedModel := selectedModel c; input := input c;
     sending := sending c; editingIndex := None; editingText := "";
     abortRef := abortRef c; signals := signals c; inflight := inflight c;
     tick := tick c |}.

(** [handleEditSave()] up to the first [await] of the [sendQuery] it calls.
    [trim] stands for [String.prototype.trim]. *)
Definition handleEditSave (clock : nat -> string) (trim : string -> string)
    (c : Chat) : Chat :=
  let trimmed := trim (editingText c) in
  if negb (truthy trimmed) then c else sendQuery_begin clock trimmed c.

(** The number of messages the loop of [replaceLastAssistant] would stop at. *)
Definition pendingCount (msgs : list Message) : nat :=
  length (List.filter isPending msgs).

(** *** Sources.jsx: what an entry shows and what its buttons do *)

(** The class of the regex of [split]: the backslash and the slash. *)
Definition isSeparator (c : ascii) : bool :=
  Ascii.eqb c "\" || Ascii.eqb c "/".

(** [p.split(re).pop()]: the text after the last separator; [seg] is the
    segment read so far. *)
Fixpoint lastSegmentFrom (seg p : string) : string :=
  match p with
  | EmptyString => seg
  | String c rest =>
      if isSeparator c then lastSegmentFrom "" rest
      else lastSegmentFrom (seg +:+ String c "") rest
  end.

Definition lastSegment (p : string) : string := lastSegmentFrom "" p.

(** [s.name || (s.path||'').split(re).pop()]: the title of an entry. *)
Definition displayName (s : Source) : string :=
  match name s with
  | Some n => if truthy n then n else lastSegment (orEmpty (path s))
  | None => lastSegment (orEmpty (path s))
  end.

(** The notice [analyze] appends before its request. *)
Definition analyzingNotice (p : option string) : string :=
  "<div class='muted'>Analyzing " +:+ escapeHtml p +:+ "…</div>".

(** [analyze(path)] up to its [await]: the progress notice. *)
Definition analyze_begin (clock : nat -> string) (p : option string) (c : Chat) : Chat :=
  doAddMessage clock assistant (analyzingNotice p) c.

(** An entry of which the response gave no field. *)
Definition emptySource : Source :=
  {| name := None; path := None; size_bytes := None; reason := None;
     reason_detail := None; file_path := None |}.

(** A session in which the edit button of a question has been clicked. *)
Definition editingChat : Chat :=
  handleEditClick 1
    {| role := user; content := userMarkup "a<b"; time := Some "10:15:00" |}
    (initChat "tinyllama").

(** [setInput(value)], from the input box, and [setModel(value)], from the
    selector of [App], which reaches the controller as [selectedModel]. *)
Definition setInput (v : string) (c : Chat) : Chat :=
  {| store := store c; selectedModel := selectedModel c; input := v;
     sending := sending c; editingIndex := editingIndex c;
     editingText := editingText c; abortRef := abortRef c;
     signals := signals c; inflight := inflight c; tick := tick c |}.

Definition setModel (v : string) (c : Chat) : Chat :=
  {| store := store c; selectedModel := v; input := input c;
     sending := sending c; editingIndex := editingIndex c;
     editingText := editingText c; abortRef := abortRef c;
     signals := signals c; inflight := inflight c; tick := tick c |}.

(** *** The events of a session *)

(** One event of the client: a submission (from the input or from the edit
    box), the settling of a request in flight, the Cancel button, a message
    appended by the panel or by the reindex button, the two edit buttons,
    typing in the input box and choosing a model. *)
Inductive chat_step (clock : nat -> string) : Chat -> Chat -> Prop :=
| chat_submit q c :
    chat_step clock c (sendQuery_begin clock q c)
| chat_settle controller o c c' :
    controller ∈ map req_signal (inflight c) ->
    sendQuery_settle clock controller o c = Some c' ->
    chat_step clock c c'
| chat_cancel c :
    chat_step clock c (cancelRequest c)
| chat_add r m c :
    chat_step clock c (doAddMessage clock r m c)
| chat_edit_click i m c :
    chat_step clock c (handleEditClick i m c)
| chat_edit_cancel c :
    chat_step clock c (handleEditCancel c)
| chat_input v c :
    chat_step clock c (setInput v c)
| chat_model v c :
    chat_step clock c (setModel v c).

(** The state of the controller list in a session: every controller of the
    list is an object of the heap, is listed once, is not aborted and has
    its request in flight; the requests in flight carry distinct controllers
    of the heap. *)
Definition consistent (c : Chat) : Prop :=
  wellFormed c
  /\ NoDup (abortRef c)
  /\ (forall k, k ∈ abortRef c ->
        signals c !! k = Some false /\ k ∈ map req_signal (inflight c))
  /\ Forall (fun r => req_signal r < length (signals c)) (inflight c)
  /\ NoDup (map req_signal (inflight c)).

(** What every state of a session satisfies: the list is consistent and the
    sending flag is set only while a request is in flight. *)
Definition sessionInvariant (c : Chat) : Prop :=
  consistent c /\ (sending c = true -> inflight c <> []).

(** Any number of events. *)
Inductive chat_steps (clock : nat -> string) : Chat -> Chat -> Prop :=
| chat_steps_refl c : chat_steps clock c c
| chat_steps_then c1 c2 c3 :
    chat_steps clock c1 c2 -> chat_step clock c2 c3 -> chat_steps clock c1 c3.

(** * Properties *)

(** ** The string functions on examples *)

Example escapeHtml_example :
  escapeHtml (Some "Tom & 'Jerry' <b>") = "Tom &amp; &#039;Jerry&#039; &lt;b&gt;".
Proof. reflexivity. Qed.

Example escapeHtml_dquote_example : escapeHtml (Some dq) = "&quot;".
Proof. reflexivity. Qed.

Example stripHtml_example : stripHtml (Some "<b>x</b> y <i") = "x y <i".
Proof. reflexivity. Qed.

Example stripHtml_nested_example : stripHtml (Some "<<a>>b<c") = ">b<c".
Proof. reflexivity. Qed.

Example stripHtml_comparison_example : stripHtml (Some "1 < 2 and 3 > 2") = "1  2".
Proof. reflexivity. Qed.

Example dropFences_example : dropFences 0 "```text\nhello```" = "hello".
Proof. reflexivity. Qed.

Example dropFences_plain_example :
  dropFences 0 "```text hello``` and `` x ```\done" = "text hello and `` x done".
Proof. reflexivity. Qed.

Example includes_example :
  includes "abcabd" "abd" = true /\ includes "abc" "" = true
  /\ includes "" "a" = false /\ includes "ab" "abc" = false.
Proof. repeat split. Qed.

Example asciiLowerCase_example :
  asciiLowerCase "Hello.TXT [Z]@{A}" = "hello.txt [z]@{a}".
Proof. reflexivity. Qed.

Example isPending_greeting_example : isPending greeting = false.
Proof. reflexivity. Qed.

(** ** Strings *)

Lemma append_empty_r (s : string) : s +:+ "" = s.
Proof. induction s as [|c s IH]; simpl; [reflexivity | f_equal; exact IH]. Qed.

Lemma append_assoc (a b c : string) : (a +:+ b) +:+ c = a +:+ b +:+ c.
Proof. induction a as [|x a IH]; simpl; [reflexivity | f_equal; exact IH]. Qed.

Lemma occurs_append (x : ascii) (a b : string) :
  occurs x (a +:+ b) = occurs x a || occurs x b.
Proof.
  induction a as [|c a IH]; simpl; [reflexivity |].
  rewrite IH. apply orb_assoc.
Qed.

Lemma length_append (a b : string) :
  String.length (a +:+ b) = String.length a + String.length b.
Proof. induction a as [|c a IH]; simpl; [reflexivity | f_equal; exact IH]. Qed.

(** A character that is not special is kept by the table. *)
Lemma escapeChar_plain (c : ascii) :
  isSpecial c = false -> escapeChar c = String c "".
Proof.
  unfold isSpecial, escapeChar. intros H.
  repeat (apply orb_false_elim in H; destruct H as [H ?]).
  repeat match goal with E : Ascii.eqb _ _ = false |- _ => rewrite E; clear E end.
  reflexivity.
Qed.

(** A special character is rewritten to an entity of at least four
    characters, none of which is a raw bracket or quote. *)
Lemma escapeChar_entity (c : ascii) :
  isSpecial c = true ->
  4 <= String.length (escapeChar c)
  /\ occurs "<" (escapeChar c) = false /\ occurs ">" (escapeChar c) = false
  /\ occurs dquote (escapeChar c) = false /\ occurs "'" (escapeChar c) = false.
Proof.
  unfold isSpecial, escapeChar. intros H.
  destruct (Ascii.eqb c "&"); [simpl; repeat split; lia |].
  destruct (Ascii.eqb c "<"); [simpl; repeat split; lia |].
  destruct (Ascii.eqb c ">"); [simpl; repeat split; lia |].
  destruct (Ascii.eqb c dquote); [simpl; repeat split; lia |].
  destruct (Ascii.eqb c "'"); [simpl; repeat split; lia |].
  discriminate H.
Qed.

Lemma escapeChar_raw_free (c : ascii) :
  occurs "<" (escapeChar c) = false /\ occurs ">" (escapeChar c) = false
  /\ occurs dquote (escapeChar c) = false /\ occurs "'" (escapeChar c) = false.
Proof.
  destruct (isSpecial c) eqn:E.
  - apply escapeChar_entity in E. tauto.
  - rewrite (escapeChar_plain c E). simpl. rewrite !orb_false_r.
    unfold isSpecial in E.
    repeat (apply orb_false_elim in E; destruct E as [E ?]).
    repeat split; assumption.
Qed.

Lemma replaceSpecials_raw_free (s : string) :
  occurs "<" (replaceSpecials s) = false /\ occurs ">" (replaceSpecials s) = false
  /\ occurs dquote (replaceSpecials s) = false
  /\ occurs "'" (replaceSpecials s) = false.
Proof.
  induction s as [|c s IH]; simpl; [repeat split |].
  rewrite !occurs_append.
  destruct (escapeChar_raw_free c) as (-> & -> & -> & ->).
  exact IH.
Qed.

Lemma escapeHtml_replaceSpecials (s : string) :
  escapeHtml (Some s) = replaceSpecials s.
Proof. destruct s; reflexivity. Qed.

Lemma escapeHtml_cons (c : ascii) (s : string) :
  escapeHtml (Some (String c s)) = escapeChar c +:+ escapeHtml (Some s).
Proof. now rewrite !escapeHtml_replaceSpecials. Qed.

Lemma replaceSpecials_append (a b : string) :
  replaceSpecials (a +:+ b) = replaceSpecials a +:+ replaceSpecials b.
Proof.
  induction a as [|c a IH]; simpl; [reflexivity |].
  now rewrite IH, append_assoc.
Qed.

Lemma escapeHtml_append (a b : string) :
  escapeHtml (Some (a +:+ b)) = escapeHtml (Some a) +:+ escapeHtml (Some b).
Proof. rewrite !escapeHtml_replaceSpecials. apply replaceSpecials_append. Qed.

Lemma replaceSpecials_length (s : string) :
  String.length s <= String.length (replaceSpecials s)
  /\ (hasSpecial s = true -> String.length s < String.length (replaceSpecials s)).
Proof.
  induction s as [|c s [IH1 IH2]]; simpl; [split; [lia | discriminate] |].
  rewrite length_append.
  destruct (isSpecial c) eqn:E; simpl.
  - apply escapeChar_entity in E. destruct E as [E _]. split; intros; lia.
  - rewrite (escapeChar_plain c E). simpl. split; [lia |].
    intros H. apply IH2 in H. lia.
Qed.

(** Escaping is the identity exactly on the strings without a special
    character. *)
Lemma replaceSpecials_fixpoint (s : string) :
  replaceSpecials s = s <-> hasSpecial s = false.
Proof.
  split.
  - intros H. destruct (hasSpecial s) eqn:E; [| reflexivity].
    apply (proj2 (replaceSpecials_length s)) in E. rewrite H in E. lia.
  - induction s as [|c s IH]; simpl; [reflexivity |].
    intros H. apply orb_false_elim in H. destruct H as [Hc Hs].
    rewrite (escapeChar_plain c Hc), (IH Hs). reflexivity.
Qed.

(** Outside a tag, text without [<] is copied. *)
Lemma stripTags_plain (s rest : string) :
  occurs "<" s = false ->
  stripTags None (s +:+ rest) = s +:+ stripTags None rest.
Proof.
  induction s as [|c s IH]; simpl; [reflexivity |].
  intros H. apply orb_false_elim in H. destruct H as [Hc Hs].
  rewrite Hc, (IH Hs). reflexivity.
Qed.

(** Inside a tag, text without [>] is buffered; the first [>] ends the
    match and the buffer is dropped. *)
Lemma stripTags_tag (t rest buf : string) :
  occurs ">" t = false ->
  stripTags (Some buf) (t +:+ String ">" rest) = stripTags None rest.
Proof.
  revert buf. induction t as [|c t IH]; simpl; intros buf H; [reflexivity |].
  apply orb_false_elim in H. destruct H as [Hc Ht].
  rewrite Hc. apply IH, Ht.
Qed.

(** A [<] with no [>] after it starts no match: the rest is kept. *)
Lemma stripTags_unclosed (t buf : string) :
  occurs ">" t = false ->
  stripTags (Some buf) t = buf +:+ t.
Proof.
  revert buf. induction t as [|c t IH]; simpl; intros buf H.
  - now rewrite append_empty_r.
  - apply orb_false_elim in H. destruct H as [Hc Ht].
    rewrite Hc, (IH _ Ht), append_assoc. reflexivity.
Qed.

Lemma stripHtml_userMarkup (q : string) :
  stripHtml (Some (userMarkup q)) = escapeHtml (Some q).
Proof.
  unfold userMarkup. rewrite escapeHtml_replaceSpecials.
  unfold stripHtml. simpl.
  rewrite stripTags_plain by apply replaceSpecials_raw_free.
  simpl. apply append_empty_r.
Qed.

(** ** Claims on escaping and stripping *)

(** C10: for every string [s], [escapeHtml s] holds no [<], no [>], no
    double quote and no single quote; each of the five special characters,
    wherever it stands in the input, is replaced by its entity;
    [escapeHtml] of a null or empty input is the empty string; and the
    stored user markup is the escaped text between the two tags of the
    wrapper. *)
Theorem escapeHtml_removes_raw_specials (s a b : string) :
  (occurs "<" (escapeHtml (Some s)) = false
   /\ occurs ">" (escapeHtml (Some s)) = false
   /\ occurs dquote (escapeHtml (Some s)) = false
   /\ occurs "'" (escapeHtml (Some s)) = false)
  /\ (escapeHtml (Some (a +:+ String "&" b)) =
        escapeHtml (Some a) +:+ "&amp;" +:+ escapeHtml (Some b)
      /\ escapeHtml (Some (a +:+ String "<" b)) =
           escapeHtml (Some a) +:+ "&lt;" +:+ escapeHtml (Some b)
      /\ escapeHtml (Some (a +:+ String ">" b)) =
           escapeHtml (Some a) +:+ "&gt;" +:+ escapeHtml (Some b)
      /\ escapeHtml (Some (a +:+ String dquote b)) =
           escapeHtml (Some a) +:+ "&quot;" +:+ escapeHtml (Some b)
      /\ escapeHtml (Some (a +:+ String "'" b)) =
           escapeHtml (Some a) +:+ "&#039;" +:+ escapeHtml (Some b))
  /\ (escapeHtml None = "" /\ escapeHtml (Some "") = "")
  /\ userMarkup s = "<div>" +:+ escapeHtml (Some s) +:+ "</div>".
Proof.
  split; [rewrite escapeHtml_replaceSpecials; apply replaceSpecials_raw_free |].
  split; [rewrite !escapeHtml_append, !escapeHtml_cons; repeat split |].
  split; [split; reflexivity |]. reflexivity.
Qed.

(** C4, as stated, fails: the question [a<b] is stored as [<div>a&lt;b</div>]
    and stripping gives [a&lt;b], not the question. *)
Lemma stripHtml_roundtrip_counterexample :
  stripHtml (Some (userMarkup "a<b")) = "a&lt;b"
  /\ stripHtml (Some (userMarkup "a<b")) <> "a<b".
Proof. split; [reflexivity | discriminate]. Qed.

(** C4, amended: stripping the stored user markup gives the escaped question
    (the tags go, the entities stay), which is the question itself exactly
    when the question holds none of the five special characters. *)
Theorem stripHtml_recovers_escaped_question (q : string) :
  stripHtml (Some (userMarkup q)) = escapeHtml (Some q)
  /\ (stripHtml (Some (userMarkup q)) = q <-> hasSpecial q = false).
Proof.
  split; [apply stripHtml_userMarkup |].
  rewrite stripHtml_userMarkup, escapeHtml_replaceSpecials.
  apply replaceSpecials_fixpoint.
Qed.

(** ** Substring search and case folding *)

Lemma startsWith_spec (s q : string) :
  startsWith s q = true <-> exists post, s = q +:+ post.
Proof.
  revert s. induction q as [|a q IH]; intros s; simpl.
  - split; [intros _; exists s; reflexivity | reflexivity].
  - destruct s as [|b s]; simpl.
    + split; [discriminate | intros [post H]; discriminate H].
    + rewrite andb_true_iff, Ascii.eqb_eq, IH. split.
      * intros [-> [post ->]]. exists post. reflexivity.
      * intros [post H]. injection H as -> ->. split; [reflexivity | eauto].
Qed.

Lemma includes_spec (s q : string) :
  includes s q = true <-> exists pre post, s = pre +:+ q +:+ post.
Proof.
  induction s as [|c s IH].
  - simpl. rewrite orb_false_r, startsWith_spec. split.
    + intros [post H]. exists "", post. exact H.
    + intros [pre [post H]]. destruct pre; [eauto | discriminate H].
  - cbn [includes]. rewrite orb_true_iff, startsWith_spec, IH. split.
    + intros [[post H]|[pre [post H]]].
      * exists "", post. exact H.
      * exists (String c pre), post. simpl. now rewrite H.
    + intros [[|x pre] [post H]]; simpl in H.
      * left. eauto.
      * right. injection H as _ H. eauto.
Qed.

(** The A to Z folding maps the empty string, and no other, to the empty
    string. *)
Lemma asciiLowerCase_empty (s : string) : asciiLowerCase s = "" <-> s = "".
Proof. destruct s; simpl; split; auto; discriminate. Qed.

Lemma agreesOnAscii_asciiLowerCase : agreesOnAscii asciiLowerCase.
Proof. intros s _. reflexivity. Qed.

Section SourceFilter.

(** [String.prototype.toLowerCase].  The proofs use one fact about it: it gives
    the empty string for the empty string and for no other string. *)
Variable toLowerCase : string -> string.

Hypothesis toLowerCase_empty : forall s, toLowerCase s = "" <-> s = "".

(** The test of the filter on one field is the containment of the
    specification. *)
Lemma includes_folded_spec (field f : string) :
  includes (toLowerCase field) (toLowerCase f) = true
  <-> containsCI toLowerCase field f.
Proof. apply includes_spec. Qed.

Lemma containsCI_empty (field : string) : containsCI toLowerCase field "".
Proof.
  exists "", (toLowerCase field).
  now rewrite (proj2 (toLowerCase_empty "") eq_refl).
Qed.

Lemma matchesFilter_spec (f : string) (s : Source) :
  matchesFilter toLowerCase f s = true <-> specVisible toLowerCase f s.
Proof.
  unfold matchesFilter, specVisible. destruct f as [|c f]; cbn [truthy negb].
  - split; [intros _; left; apply containsCI_empty | reflexivity].
  - cbv zeta. rewrite !orb_true_iff, !includes_folded_spec. tauto.
Qed.

Lemma visibleSources_In (f : string) (l : list Source) (s : Source) :
  s ∈ visibleSources toLowerCase f l <-> s ∈ l /\ specVisible toLowerCase f s.
Proof.
  unfold visibleSources. rewrite !list_elem_of_In, filter_In, matchesFilter_spec.
  reflexivity.
Qed.

Lemma visibleSources_sublist (f : string) (l : list Source) :
  visibleSources toLowerCase f l `sublist_of` l.
Proof.
  unfold visibleSources. induction l as [|s l IH]; simpl; [constructor |].
  destruct (matchesFilter toLowerCase f s); now constructor.
Qed.

(** The panel drops the entries that do not contain the filter, and only
    those. *)
Lemma visibleSources_exact (f : string) (l : list Source) :
  keepsExactly (specVisible toLowerCase f) l (visibleSources toLowerCase f l).
Proof.
  unfold visibleSources. induction l as [|s l IH]; simpl; [constructor |].
  destruct (matchesFilter toLowerCase f s) eqn:E.
  - apply keeps_shown; [now apply matchesFilter_spec | exact IH].
  - apply keeps_hidden; [| exact IH].
    intros H. apply matchesFilter_spec in H. congruence.
Qed.

Lemma visibleSources_none (f : string) (l : list Source) :
  (forall s, s ∈ l -> ~ specVisible toLowerCase f s) ->
  visibleSources toLowerCase f l = [].
Proof.
  unfold visibleSources. induction l as [|s l IH]; simpl; intros H; [reflexivity |].
  destruct (matchesFilter toLowerCase f s) eqn:E.
  - apply matchesFilter_spec in E. exfalso. apply (H s); [left | exact E].
  - apply IH. intros s' Hs'. apply H. now right.
Qed.

Lemma visibleSources_app (f : string) (l1 l2 : list Source) :
  visibleSources toLowerCase f (l1 ++ l2) =
    visibleSources toLowerCase f l1 ++ visibleSources toLowerCase f l2.
Proof. unfold visibleSources. apply List.filter_app. Qed.

Lemma visibleSources_clear (l : list Source) : visibleSources toLowerCase "" l = l.
Proof.
  unfold visibleSources. induction l as [|s l IH]; simpl; [reflexivity |].
  f_equal; exact IH.
Qed.

(** ** Claims on the source filter *)

(** C7, amended: the visible list is the list without the entries of which
    neither the name, the path nor the reason detail contains the filter,
    both in lower case: the same entries, as many times, in the order of the
    list; the empty filter shows the whole list; a filter found in the path
    of one entry and in no field of any other entry leaves that entry
    alone; a filter found in no entry leaves none; and clearing the filter
    gives the list back. *)
Theorem visibleSources_filter (f : string) (l : list Source) :
  keepsExactly (specVisible toLowerCase f) l (visibleSources toLowerCase f l)
  /\ (forall s, s ∈ visibleSources toLowerCase f l
                <-> s ∈ l /\ specVisible toLowerCase f s)
  /\ visibleSources toLowerCase f l `sublist_of` l
  /\ visibleSources toLowerCase "" l = l
  /\ (forall l1 s l2,
        l = l1 ++ s :: l2 ->
        containsCI toLowerCase (orEmpty (path s)) f ->
        (forall s', s' ∈ l1 ++ l2 -> ~ specVisible toLowerCase f s') ->
        visibleSources toLowerCase f l = [s])
  /\ ((forall s, s ∈ l -> ~ specVisible toLowerCase f s) ->
      visibleSources toLowerCase f l = []).
Proof.
  split; [apply visibleSources_exact |].
  split; [intros s; apply visibleSources_In |].
  split; [apply visibleSources_sublist |].
  split; [apply visibleSources_clear |].
  split; [| apply visibleSources_none].
  intros l1 s l2 -> Hs Hothers.
  rewrite visibleSources_app.
  rewrite (visibleSources_none f l1)
    by (intros s' Hs'; apply Hothers, elem_of_app; now left).
  change (s :: l2) with ([s] ++ l2). rewrite visibleSources_app.
  rewrite (visibleSources_none f l2)
    by (intros s' Hs'; apply Hothers, elem_of_app; now right).
  unfold visibleSources. simpl.
  assert (matchesFilter toLowerCase f s = true) as ->; [| reflexivity].
  apply matchesFilter_spec. right. left. exact Hs.
Qed.

End SourceFilter.

(** With any lower-casing that is the A to Z folding on ASCII strings,
    [budget] is in the path of one entry of the sample and both entries are
    shown. *)
Lemma sampleSources_budget (toLowerCase : string -> string) :
  agreesOnAscii toLowerCase ->
  includes (toLowerCase (orEmpty (path budgetXlsx))) (toLowerCase "budget") = true
  /\ includes (toLowerCase (orEmpty (path summaryTxt))) (toLowerCase "budget") = false
  /\ visibleSources toLowerCase "budget" sampleSources = [summaryTxt; budgetXlsx].
Proof.
  intros H. unfold visibleSources, matchesFilter. simpl.
  rewrite !H by reflexivity. repeat split.
Qed.

(** C7, as stated, fails: [budget] is in the path of exactly one entry, yet
    both entries are visible, the other one through its reason detail.  The
    strings are ASCII, on which [toLowerCase] is the A to Z folding. *)
Lemma filter_one_path_counterexample :
  (containsCI asciiLowerCase (orEmpty (path budgetXlsx)) "budget"
   /\ ~ containsCI asciiLowerCase (orEmpty (path summaryTxt)) "budget")
  /\ visibleSources asciiLowerCase "budget" sampleSources = [summaryTxt; budgetXlsx]
  /\ length (visibleSources asciiLowerCase "budget" sampleSources) <> 1.
Proof.
  destruct (sampleSources_budget asciiLowerCase agreesOnAscii_asciiLowerCase)
    as (H1 & H2 & H3).
  split; [split |].
  - now apply includes_folded_spec.
  - intros H. apply includes_folded_spec in H. congruence.
  - rewrite H3. split; [reflexivity | discriminate].
Qed.

(** ** The placeholder loop *)

Lemma isPending_assistant (m : Message) : isPending m = true -> role m = assistant.
Proof.
  unfold isPending. intros H. apply andb_true_iff in H. destruct H as [H _].
  now apply bool_decide_eq_true in H.
Qed.

Lemma overwrite_pending (p : Message) (c now : string) :
  isPending p = true -> overwrite p c now = assistantMessage c now.
Proof. intros H. unfold overwrite. now rewrite (isPending_assistant p H). Qed.

(** The index read by the loop is always in range. *)
Lemma replaceLoop_total (c now : string) (copy : list Message) (n : nat) :
  n <= length copy -> is_Some (replaceLoop c now copy n).
Proof.
  induction n as [|n IH]; simpl; intros Hn; [eauto |].
  destruct (lookup_lt_is_Some_2 copy n) as [m Hm]; [lia |].
  rewrite Hm. simpl. destruct (isPending m); [eauto | apply IH; lia].
Qed.

(** The loop stops at the highest pending index below [n]. *)
Lemma replaceLoop_found (c now : string) (copy : list Message) (i : nat) (p : Message) :
  copy !! i = Some p -> isPending p = true ->
  forall n, i < n -> n <= length copy ->
    (forall j m, i < j < n -> copy !! j = Some m -> isPending m = false) ->
    replaceLoop c now copy n = Some (<[i := overwrite p c now]> copy).
Proof.
  intros Hp Hpend. induction n as [|n IH]; intros Hi Hn Hafter; [lia |].
  simpl. destruct (decide (i = n)) as [->|Hne].
  - rewrite Hp. simpl. now rewrite Hpend.
  - destruct (lookup_lt_is_Some_2 copy n) as [m Hm]; [lia |].
    rewrite Hm. simpl. rewrite (Hafter n m) by (lia || assumption).
    apply IH; [lia | lia |]. intros j m' Hj. apply Hafter. lia.
Qed.

(** With no pending message below [n] the loop falls through to the
    fallback. *)
Lemma replaceLoop_none (c now : string) (copy : list Message) (n : nat) :
  n <= length copy ->
  (forall j m, j < n -> copy !! j = Some m -> isPending m = false) ->
  replaceLoop c now copy n = Some (copy ++ [assistantMessage c now]).
Proof.
  induction n as [|n IH]; intros Hn Hnone; [reflexivity |].
  simpl. destruct (lookup_lt_is_Some_2 copy n) as [m Hm]; [lia |].
  rewrite Hm. simpl. rewrite (Hnone n m) by (lia || assumption).
  apply IH; [lia |]. intros j m' Hj. apply Hnone. lia.
Qed.

(** The two ways the loop can end. *)
Lemma replaceLoop_cases (c now : string) (copy r : list Message) (n : nat) :
  replaceLoop c now copy n = Some r ->
  r = copy ++ [assistantMessage c now]
  \/ exists i m, copy !! i = Some m /\ isPending m = true
                 /\ r = <[i := overwrite m c now]> copy.
Proof.
  induction n as [|n IH]; simpl; intros H.
  - left. now injection H as <-.
  - destruct (copy !! n) as [m|] eqn:Hm; simpl in H; [| discriminate H].
    destruct (isPending m) eqn:Hpend; [| auto].
    right. exists n, m. injection H as <-. auto.
Qed.

Lemma replaceLastAssistant_found (c now : string) (st : Store)
    (pre post : list Message) (p : Message) :
  messages st = pre ++ p :: post -> isPending p = true -> nonePending post ->
  replaceLastAssistant c now st =
    Some {| messages := pre ++ assistantMessage c now :: post; sources := sources st |}.
Proof.
  intros Hm Hp Hpost. unfold replaceLastAssistant.
  rewrite (replaceLoop_found c now (messages st) (length pre) p).
  - simpl. rewrite Hm. do 2 f_equal.
    rewrite overwrite_pending by exact Hp.
    replace (length pre) with (length pre + 0) by lia.
    now rewrite insert_app_r.
  - rewrite Hm. apply list_lookup_middle. reflexivity.
  - exact Hp.
  - rewrite Hm, length_app. simpl. lia.
  - lia.
  - intros j m [Hj1 Hj2] Hjm. rewrite Hm in Hjm.
    rewrite lookup_app_r in Hjm by lia.
    destruct (j - length pre) as [|k] eqn:Hk; [lia |]. simpl in Hjm.
    unfold nonePending in Hpost. rewrite Forall_lookup in Hpost.
    eapply Hpost, Hjm.
Qed.

Lemma replaceLastAssistant_fallback (c now : string) (st : Store) :
  nonePending (messages st) ->
  replaceLastAssistant c now st =
    Some {| messages := messages st ++ [assistantMessage c now]; sources := sources st |}.
Proof.
  intros Hnone. unfold replaceLastAssistant.
  rewrite replaceLoop_none; [reflexivity | lia |].
  intros j m _ Hjm. unfold nonePending in Hnone. rewrite Forall_lookup in Hnone.
  eapply Hnone, Hjm.
Qed.

Lemma replaceLastAssistant_total (c now : string) (st : Store) :
  is_Some (replaceLastAssistant c now st).
Proof.
  unfold replaceLastAssistant.
  destruct (replaceLoop_total c now (messages st) (length (messages st))) as [r Hr];
    [lia |].
  rewrite Hr. simpl. eauto.
Qed.

Lemma replaceLastAssistant_sources (c now : string) (st st' : Store) :
  replaceLastAssistant c now st = Some st' -> sources st' = sources st.
Proof.
  unfold replaceLastAssistant.
  destruct (replaceLoop c now (messages st) (length (messages st))); simpl;
    intros H; [now injection H as <- | discriminate H].
Qed.

Lemma replaceLastAssistant_cases (c now : string) (st st' : Store) :
  replaceLastAssistant c now st = Some st' ->
  messages st' = messages st ++ [assistantMessage c now]
  \/ exists i m, messages st !! i = Some m /\ role m = assistant
                 /\ messages st' = <[i := assistantMessage c now]> (messages st).
Proof.
  unfold replaceLastAssistant.
  destruct (replaceLoop c now (messages st) (length (messages st))) as [r|] eqn:Hr;
    simpl; intros H; [| discriminate H].
  injection H as <-. simpl.
  destruct (replaceLoop_cases _ _ _ _ _ Hr) as [->|(i & m & Hm & Hp & ->)]; [auto |].
  right. exists i, m. rewrite overwrite_pending by exact Hp.
  auto using isPending_assistant.
Qed.

(** ** Claims on the session store *)

(** C8: [replaceLastAssistant] overwrites, in place, the content and the
    time of the last assistant message that carries the pending marker;
    when no message carries it, it appends a new assistant message; and it
    returns a result for every store. *)
Theorem replaceLastAssistant_spec (newContent now : string) (st : Store) :
  (forall pre p post,
      messages st = pre ++ p :: post ->
      isPending p = true ->
      nonePending post ->
      replaceLastAssistant newContent now st =
        Some {| messages :=
                  pre ++ {| role := assistant; content := newContent;
                            time := Some now |} :: post;
                sources := sources st |})
  /\ (nonePending (messages st) ->
      replaceLastAssistant newContent now st =
        Some {| messages :=
                  messages st ++ [{| role := assistant; content := newContent;
                                     time := Some now |}];
                sources := sources st |})
  /\ is_Some (replaceLastAssistant newContent now st).
Proof.
  split; [| split].
  - intros pre p post. apply replaceLastAssistant_found.
  - apply replaceLastAssistant_fallback.
  - apply replaceLastAssistant_total.
Qed.

Lemma keepsExisting_refl (l : list Message) : keepsExisting l l.
Proof. intros i m H. exists m. auto. Qed.

Lemma keepsExisting_trans (l1 l2 l3 : list Message) :
  keepsExisting l1 l2 -> keepsExisting l2 l3 -> keepsExisting l1 l3.
Proof.
  intros H12 H23 i m Hm.
  destruct (H12 i m Hm) as (m2 & Hm2 & Hr2 & Hu2).
  destruct (H23 i m2 Hm2) as (m3 & Hm3 & Hr3 & Hu3).
  exists m3. split; [exact Hm3 |]. split; [congruence |].
  intros Hu. rewrite <- (Hu2 Hu). apply Hu3. congruence.
Qed.

Lemma keepsExisting_app (l extra : list Message) : keepsExisting l (l ++ extra).
Proof. intros i m H. exists m. auto using lookup_app_l_Some. Qed.

(** Overwriting an assistant message keeps every role and every user
    message. *)
Lemma keepsExisting_insert (l : list Message) (i : nat) (m new : Message) :
  l !! i = Some m -> role m = assistant -> role new = assistant ->
  keepsExisting l (<[i := new]> l).
Proof.
  intros Hm Hrole Hnew j x Hx. destruct (decide (i = j)) as [->|Hne].
  - exists new. rewrite list_lookup_insert_eq by eauto using lookup_lt_Some.
    assert (x = m) as -> by congruence.
    split; [reflexivity |]. split; congruence.
  - exists x. rewrite list_lookup_insert_ne by exact Hne. auto.
Qed.

Lemma store_step_keepsExisting (st st' : Store) :
  store_step st st' -> keepsExisting (messages st) (messages st').
Proof.
  intros H. destruct H as [r c now st|c now st st' H|l st]; simpl.
  - apply keepsExisting_app.
  - destruct (replaceLastAssistant_cases _ _ _ _ H) as [->|(i & m & Hm & Hr & ->)].
    + apply keepsExisting_app.
    + eapply keepsExisting_insert; eauto.
  - apply keepsExisting_refl.
Qed.

(** C9: [addMessage] only appends; [setSourceList] leaves the messages as
    they are; [replaceLastAssistant] appends an assistant message or
    overwrites one message whose role is assistant with an assistant
    message; so after any number of store operations every message that
    existed is still at its index with its role, and every user message is
    unchanged. *)
Theorem store_operations_keep_roles (st st' : Store) :
  (forall r c now,
      messages (addMessage r c now st) =
        messages st ++ [{| role := r; content := c; time := Some now |}])
  /\ (forall l, messages (setSourceList l st) = messages st)
  /\ (forall c now st1,
        replaceLastAssistant c now st = Some st1 ->
        messages st1 = messages st ++ [assistantMessage c now]
        \/ exists i m, messages st !! i = Some m /\ role m = assistant
             /\ messages st1 = <[i := assistantMessage c now]> (messages st))
  /\ (store_steps st st' ->
      keepsExisting (messages st) (messages st')
      /\ length (messages st) <= length (messages st')).
Proof.
  split; [reflexivity |]. split; [reflexivity |].
  split; [intros c now st1; apply replaceLastAssistant_cases |].
  intros Hsteps. induction Hsteps as [st|st1 st2 st3 _ [IH1 IH2] Hstep].
  - split; [apply keepsExisting_refl | lia].
  - split.
    + eapply keepsExisting_trans; [exact IH1 |].
      now apply store_step_keepsExisting.
    + etransitivity; [exact IH2 |].
      destruct Hstep as [r c now st|c now st st' H|l st]; simpl.
      * rewrite length_app. lia.
      * destruct (replaceLastAssistant_cases _ _ _ _ H) as [->|(i & m & _ & _ & ->)].
        -- rewrite length_app. lia.
        -- now rewrite length_insert.
      * lia.
Qed.

(** ** The controller *)

Section ControllerProperties.

Variable clock : nat -> string.

Lemma truthy_nonempty (q : string) : q <> "" -> truthy q = true.
Proof. destruct q; [congruence | reflexivity]. Qed.

Lemma isPending_placeholder (r : option string) :
  isPending {| role := assistant; content := placeholderMarkup; time := r |} = true.
Proof. reflexivity. Qed.

Lemma doReplaceLastAssistant_found (m : string) (c : Chat)
    (pre post : list Message) (p : Message) :
  messages (store c) = pre ++ p :: post -> isPending p = true -> nonePending post ->
  doReplaceLastAssistant clock m c =
    Some (withStore c
            {| messages := pre ++ assistantMessage m (clock (tick c)) :: post;
               sources := sources (store c) |} 1).
Proof.
  intros Hm Hp Hpost. unfold doReplaceLastAssistant.
  now rewrite (replaceLastAssistant_found _ _ _ pre post p Hm Hp Hpost).
Qed.

(** What the accepted call of [sendQuery] does before its [await]. *)
Lemma sendQuery_begin_accepted (q : string) (c : Chat) :
  q <> "" -> sending c = false ->
  sendQuery_begin clock q c =
    {| store :=
         {| messages :=
              messages (store c) ++
              [{| role := user; content := userMarkup q;
                  time := Some (clock (tick c)) |};
               {| role := assistant; content := placeholderMarkup;
                  time := Some (clock (tick c + 1)) |}];
            sources := sources (store c) |};
       selectedModel := selectedModel c; input := input c; sending := true;
       editingIndex := editingIndex c; editingText := editingText c;
       abortRef := abortRef c ++ [length (signals c)];
       signals := signals c ++ [false];
       inflight := inflight c ++
         [{| req_query := q; req_model := selectedModel c;
             req_signal := length (signals c) |}];
       tick := tick c + 1 + 1 |}.
Proof.
  intros Hq Hs. unfold sendQuery_begin.
  rewrite (truthy_nonempty q Hq), Hs. simpl.
  unfold doAddMessage, withStore, addMessage. simpl.
  now rewrite <- app_assoc.
Qed.

(** After an accepted call the placeholder is the last message, hence the
    latest pending one. *)
Lemma sendQuery_begin_placeholder_last (q : string) (c : Chat) :
  q <> "" -> sending c = false ->
  exists pre p,
    messages (store (sendQuery_begin clock q c)) = pre ++ p :: []
    /\ isPending p = true /\ content p = placeholderMarkup.
Proof.
  intros Hq Hs. rewrite (sendQuery_begin_accepted q c Hq Hs). simpl.
  eexists (messages (store c) ++ [_]), _.
  split; [now rewrite <- app_assoc |]. split; reflexivity.
Qed.

(** The guard of [sendQuery]. *)
Lemma sendQuery_begin_blocked (q : string) (c : Chat) :
  sending c = true -> sendQuery_begin clock q c = c.
Proof.
  intros Hs. unfold sendQuery_begin. rewrite Hs, orb_true_r. reflexivity.
Qed.

Lemma fold_abort_length (l : list nat) (sg : list bool) :
  length (fold_left (fun sg ctl => <[ctl := true]> sg) l sg) = length sg.
Proof.
  revert sg. induction l as [|k l IH]; intros sg; simpl; [reflexivity |].
  now rewrite IH, length_insert.
Qed.

Lemma fold_abort_stays (l : list nat) (sg : list bool) (k : nat) :
  sg !! k = Some true ->
  fold_left (fun sg ctl => <[ctl := true]> sg) l sg !! k = Some true.
Proof.
  revert sg. induction l as [|x l IH]; intros sg H; simpl; [exact H |].
  apply IH. destruct (decide (x = k)) as [->|Hne].
  - apply list_lookup_insert_eq. eauto using lookup_lt_Some.
  - now rewrite list_lookup_insert_ne.
Qed.

(** [cancelRequest] sets the flag of every controller of the list. *)
Lemma fold_abort_all (l : list nat) (sg : list bool) (k : nat) :
  k ∈ l -> k < length sg ->
  fold_left (fun sg ctl => <[ctl := true]> sg) l sg !! k = Some true.
Proof.
  revert sg. induction l as [|x l IH]; intros sg Hin Hk; [inversion Hin |].
  simpl. destruct (decide (x = k)) as [->|Hne].
  - apply fold_abort_stays. now apply list_lookup_insert_eq.
  - apply IH; [| now rewrite length_insert].
    apply elem_of_cons in Hin. destruct Hin as [->|Hin]; [congruence | exact Hin].
Qed.

(** ** Claims on sending *)

(** C2: for a non-empty query and a controller that is not sending, the part
    of [sendQuery] before its [await] appends one user message holding the
    escaped query and, right after it, one assistant message with the
    pending marker; the messages before them and the sources are as they
    were, and the request is in flight. *)
Theorem sendQuery_appends_user_and_placeholder (q : string) (c : Chat) :
  q <> "" ->
  sending c = false ->
  messages (store (sendQuery_begin clock q c)) =
    messages (store c) ++
    [{| role := user; content := "<div>" +:+ escapeHtml (Some q) +:+ "</div>";
        time := Some (clock (tick c)) |};
     {| role := assistant; content := placeholderMarkup;
        time := Some (clock (tick c + 1)) |}]
  /\ isPending {| role := assistant; content := placeholderMarkup;
                  time := Some (clock (tick c + 1)) |} = true
  /\ sources (store (sendQuery_begin clock q c)) = sources (store c)
  /\ inflight (sendQuery_begin clock q c) =
       inflight c ++ [{| req_query := q; req_model := selectedModel c;
                         req_signal := length (signals c) |}].
Proof.
  intros Hq Hs. rewrite (sendQuery_begin_accepted q c Hq Hs). simpl.
  repeat split.
Qed.

(** C3, as stated, fails: with one query pending, a second submission
    changes nothing; one request and one token are outstanding, not two. *)
Lemma sendQuery_second_submission_counterexample :
  sending pendingChat = true
  /\ length (inflight pendingChat) = 1
  /\ sendQuery_begin sampleClock "and the summary?" pendingChat = pendingChat
  /\ length (inflight (sendQuery_begin sampleClock "and the summary?" pendingChat)) = 1
  /\ length (abortRef (sendQuery_begin sampleClock "and the summary?" pendingChat)) = 1.
Proof. repeat split. Qed.

(** C3, amended: while the sending flag is set a submission is ignored, with
    no message, no token and no request; a non-empty submission made when
    the flag is clear is accepted whatever tokens are outstanding, sets the
    flag, and its request carries a new controller of its own, which is not
    aborted and differs from every outstanding one. *)
Theorem sendQuery_gate (q : string) (c : Chat) :
  (sending c = true -> sendQuery_begin clock q c = c)
  /\ (q <> "" -> sending c = false ->
      sending (sendQuery_begin clock q c) = true
      /\ abortRef (sendQuery_begin clock q c) = abortRef c ++ [length (signals c)]
      /\ signals (sendQuery_begin clock q c) = signals c ++ [false]
      /\ inflight (sendQuery_begin clock q c) =
           inflight c ++ [{| req_query := q; req_model := selectedModel c;
                             req_signal := length (signals c) |}]
      /\ (wellFormed c -> length (signals c) ∉ abortRef c)).
Proof.
  split; [apply sendQuery_begin_blocked |].
  intros Hq Hs. rewrite (sendQuery_begin_accepted q c Hq Hs). simpl.
  repeat split.
  intros Hwf Hin. unfold wellFormed in Hwf. rewrite Forall_forall in Hwf.
  specialize (Hwf _ Hin). lia.
Qed.

(** The three cases of the [markdown] field: a non-empty string, the empty
    string, no field. *)
Ltac case_markdown data :=
  let md := fresh "md" in
  destruct (markdown data) as [md|]; [destruct (truthy md) |].

(** ** Well-formed controller lists *)

Lemma removeFirst_Forall (P : nat -> Prop) (k : nat) (l : list nat) :
  Forall P l -> Forall P (removeFirst k l).
Proof.
  induction 1 as [|x l Hx Hl IH]; simpl; [constructor |].
  destruct (Nat.eqb x k); [exact Hl | now constructor].
Qed.

Lemma wellFormed_init (model : string) : wellFormed (initChat model).
Proof. constructor. Qed.

Lemma wellFormed_begin (q : string) (c : Chat) :
  wellFormed c -> wellFormed (sendQuery_begin clock q c).
Proof.
  intros Hwf. unfold sendQuery_begin.
  destruct (negb (truthy q) || sending c); [exact Hwf |].
  unfold wellFormed in *. simpl. rewrite length_app. simpl.
  apply Forall_app. split.
  - eapply Forall_impl; [exact Hwf |]. simpl. intros; lia.
  - repeat constructor. lia.
Qed.

Lemma wellFormed_cancel (c : Chat) : wellFormed (cancelRequest c).
Proof. constructor. Qed.

Lemma doReplaceLastAssistant_frame (m : string) (c c' : Chat) :
  doReplaceLastAssistant clock m c = Some c' ->
  abortRef c' = abortRef c /\ signals c' = signals c /\ sending c' = sending c
  /\ inflight c' = inflight c /\ sources (store c') = sources (store c).
Proof.
  unfold doReplaceLastAssistant.
  destruct (replaceLastAssistant m (clock (tick c)) (store c)) as [st|] eqn:E;
    simpl; intros H; [| discriminate H].
  injection H as <-. simpl.
  repeat split. eapply replaceLastAssistant_sources, E.
Qed.

Lemma wellFormed_settle (controller : nat) (o : Outcome) (c c' : Chat) :
  wellFormed c -> sendQuery_settle clock controller o c = Some c' -> wellFormed c'.
Proof.
  intros Hwf. unfold sendQuery_settle.
  destruct (match o with
            | Resolved data => onResolved clock data c
            | Rejected e => onRejected clock e c
            end) as [c1|] eqn:E; simpl; intros H; [| discriminate H].
  injection H as <-. unfold wellFormed. simpl. apply removeFirst_Forall.
  assert (abortRef c1 = abortRef c /\ signals c1 = signals c) as [-> ->];
    [| exact Hwf].
  destruct o as [data|e].
  - unfold onResolved in E.
    destruct (match answer data with
              | Some a =>
                  if truthy a then doReplaceLastAssistant clock (answerMarkup a) c
                  else Some c
              | None => Some c
              end) as [c0|] eqn:E0; simpl in E; [| discriminate E].
    injection E as <-.
    assert (abortRef c0 = abortRef c /\ signals c0 = signals c) as [<- <-].
    { destruct (answer data) as [a|]; [destruct (truthy a) |].
      - apply doReplaceLastAssistant_frame in E0. tauto.
      - now injection E0 as <-.
      - now injection E0 as <-. }
    case_markdown data; auto.
  - unfold onRejected in E.
    destruct (String.eqb (err_name e) "AbortError");
      apply doReplaceLastAssistant_frame in E; tauto.
Qed.

(** ** Claims on the completion of a request *)

(** The sources a response gives, case by case. *)
Lemma pickSources_cases (data : AskResponse) :
  (forall l, resp_sources data = Some l -> pickSources data = l)
  /\ (forall l, resp_sources data = None -> resp_results data = Some l ->
                pickSources data = l)
  /\ (resp_sources data = None -> resp_results data = None -> pickSources data = []).
Proof.
  unfold pickSources. repeat split.
  - now intros l ->.
  - now intros l -> ->.
  - now intros -> ->.
Qed.

(** C1, as stated, fails in two ways.  With the empty string as answer the
    placeholder is not replaced: it is still the last message, while the
    sources are those of the response.  And with a message that matches the
    marker after the placeholder (here the progress notice of an analysis
    of a file whose path holds the word spinner), a non-empty answer goes
    to that message and the placeholder stays. *)
Lemma sendQuery_answer_counterexample :
  (exists c',
      sendQuery_settle sampleClock 0 (Resolved emptyAnswer) pendingChat = Some c'
      /\ messages (store c') = messages (store pendingChat)
      /\ last (messages (store c')) =
           Some {| role := assistant; content := placeholderMarkup;
                   time := Some "10:15:01" |}
      /\ placeholderMarkup <> answerMarkup ""
      /\ sources (store c') = sampleSources)
  /\ (exists c',
        sendQuery_settle sampleClock 0 (Resolved fullAnswer)
          (analyze_begin sampleClock (Some "C:\spinner\notes.txt") pendingChat)
          = Some c'
        /\ messages (store c') !! 2 =
             Some {| role := assistant; content := placeholderMarkup;
                     time := Some "10:15:01" |}
        /\ messages (store c') !! 3 =
             Some {| role := assistant; content := "<div>See budget.xlsx</div>";
                     time := Some "10:15:01" |}
        /\ length (messages (store c')) = 4).
Proof.
  split.
  - eexists. split; [reflexivity |].
    split; [reflexivity |]. split; [reflexivity |].
    split; [discriminate | reflexivity].
  - eexists. split; [reflexivity |]. repeat split.
Qed.

(** C1, amended: for a response with an answer field [X], when [X] is
    not empty the latest message that matches the pending marker gets the
    escaped answer as content, and when [X] is the empty string no message
    is replaced; in both cases a message for the [markdown] field, if there
    is one, is appended and the source list becomes the [sources] field of
    the response, the [results] field when [sources] is absent, and the
    empty list when both are. *)
Theorem sendQuery_resolved_with_answer (controller : nat) (data : AskResponse)
    (X : string) (c : Chat) :
  answer data = Some X ->
  (X <> "" ->
   forall pre p post,
     messages (store c) = pre ++ p :: post ->
     isPending p = true ->
     nonePending post ->
     exists c',
       sendQuery_settle clock controller (Resolved data) c = Some c'
       /\ messages (store c') =
            pre ++ {| role := assistant;
                      content := "<div>" +:+ escapeHtml (Some X) +:+ "</div>";
                      time := Some (clock (tick c)) |}
                :: post ++ markdownMessages data (clock (tick c + 1))
       /\ sources (store c') = pickSources data
       /\ sending c' = false)
  /\ (X = "" ->
      exists c',
        sendQuery_settle clock controller (Resolved data) c = Some c'
        /\ messages (store c') =
             messages (store c) ++ markdownMessages data (clock (tick c))
        /\ sources (store c') = pickSources data
        /\ sending c' = false)
  /\ (forall l, resp_sources data = Some l -> pickSources data = l)
  /\ (forall l, resp_sources data = None -> resp_results data = Some l ->
                pickSources data = l)
  /\ (resp_sources data = None -> resp_results data = None -> pickSources data = []).
Proof.
  intros HX. split; [| split; [| apply pickSources_cases]].
  - intros Hne pre p post Hm Hp Hpost.
    unfold sendQuery_settle, onResolved. rewrite HX, (truthy_nonempty X Hne).
    rewrite (doReplaceLastAssistant_found _ c pre post p Hm Hp Hpost). simpl.
    eexists. split; [reflexivity |]. simpl.
    split.
    + unfold markdownMessages.
      case_markdown data; simpl.
      * now rewrite <- app_assoc.
      * now rewrite app_nil_r.
      * now rewrite app_nil_r.
    + case_markdown data; split; reflexivity.
  - intros ->. unfold sendQuery_settle, onResolved. rewrite HX. simpl.
    eexists. split; [reflexivity |]. unfold markdownMessages.
    case_markdown data; simpl; rewrite ?app_nil_r; repeat split.
Qed.

(** C6: for a response with no answer field the messages that exist,
    the placeholder among them, are left as they are (only a message for
    the [markdown] field may be appended), and the source list is replaced
    by the one of the response. *)
Theorem sendQuery_resolved_without_answer (controller : nat) (data : AskResponse)
    (c : Chat) :
  answer data = None ->
  exists c',
    sendQuery_settle clock controller (Resolved data) c = Some c'
    /\ messages (store c') =
         messages (store c) ++ markdownMessages data (clock (tick c))
    /\ (forall i m, messages (store c) !! i = Some m ->
                    messages (store c') !! i = Some m)
    /\ sources (store c') = pickSources data.
Proof.
  intros HX. unfold sendQuery_settle, onResolved. rewrite HX. simpl.
  eexists. split; [reflexivity |].
  assert (messages
            (store
               (onFinally controller
                  (doSetSourceList (pickSources data)
                     match markdown data with
                     | Some md =>
                         if truthy md
                         then doAddMessage clock assistant (markdownMarkup md) c
                         else c
                     | None => c
                     end))) =
          messages (store c) ++ markdownMessages data (clock (tick c))) as Hmsgs.
  { unfold markdownMessages.
    case_markdown data; simpl;
      rewrite ?app_nil_r; reflexivity. }
  split; [exact Hmsgs |]. split.
  - intros i m Him. rewrite Hmsgs. now apply lookup_app_l_Some.
  - case_markdown data; reflexivity.
Qed.

(** C5, as stated, fails: with a message that matches the marker after the
    placeholder (the progress notice of an analysis of a file whose path
    holds the word spinner), the cancellation notice goes to that message
    and the placeholder of the cancelled request stays. *)
Lemma cancelPending_other_marker_counterexample :
  exists c',
    cancelPending sampleClock 0
      (analyze_begin sampleClock (Some "C:\spinner\notes.txt") pendingChat)
      = Some c'
    /\ messages (store c') !! 2 =
         Some {| role := assistant; content := placeholderMarkup;
                 time := Some "10:15:01" |}
    /\ messages (store c') !! 3 =
         Some {| role := assistant;
                 content := "<div class='muted'>Request canceled.</div>";
                 time := Some "10:15:01" |}
    /\ length (messages (store c')) = 4.
Proof. eexists. split; [reflexivity |]. repeat split. Qed.

(** C5, amended: cancelling while a request is pending aborts every
    controller of the list, empties the list, clears the sending flag, puts
    the cancellation notice in the place of the latest message that matches
    the pending marker and leaves the source list as it was. *)
Theorem cancelPending_replaces_placeholder (controller : nat) (c : Chat)
    (pre post : list Message) (p : Message) :
  wellFormed c ->
  messages (store c) = pre ++ p :: post ->
  isPending p = true ->
  nonePending post ->
  exists c',
    cancelPending clock controller c = Some c'
    /\ (forall k, k ∈ abortRef c -> signals c' !! k = Some true)
    /\ abortRef c' = []
    /\ sending c' = false
    /\ messages (store c') =
         pre ++ {| role := assistant;
                   content := "<div class='muted'>Request canceled.</div>";
                   time := Some (clock (tick c)) |} :: post
    /\ sources (store c') = sources (store c).
Proof.
  intros Hwf Hm Hp Hpost.
  unfold cancelPending, sendQuery_settle, onRejected. simpl.
  rewrite (doReplaceLastAssistant_found _ (cancelRequest c) pre post p Hm Hp Hpost).
  simpl. eexists. split; [reflexivity |]. simpl.
  split; [| repeat split].
  intros k Hk. apply fold_abort_all; [exact Hk |].
  unfold wellFormed in Hwf. rewrite Forall_forall in Hwf. now apply Hwf.
Qed.

End ControllerProperties.

(** * The claims at sample inputs *)

(** The two messages the pending session holds after the greeting. *)
Lemma pendingChat_messages :
  messages (store pendingChat) =
    [greeting;
     {| role := user; content := "<div>where is the budget?</div>";
        time := Some "10:15:00" |}]
    ++ {| role := assistant; content := placeholderMarkup;
          time := Some "10:15:01" |} :: [].
Proof. reflexivity. Qed.

Lemma pendingChat_wellFormed : wellFormed pendingChat.
Proof. repeat constructor. Qed.

(** C2 at the first question of a session. *)
Lemma sendQuery_appends_user_and_placeholder_witness :
  "where is the budget?" <> ""
  /\ sending (initChat "tinyllama") = false
  /\ messages (store pendingChat) =
       messages (store (initChat "tinyllama")) ++
       [{| role := user;
           content := "<div>" +:+ escapeHtml (Some "where is the budget?") +:+ "</div>";
           time := Some (sampleClock 0) |};
        {| role := assistant; content := placeholderMarkup;
           time := Some (sampleClock 1) |}].
Proof.
  split; [discriminate |]. split; [reflexivity |].
  apply (sendQuery_appends_user_and_placeholder sampleClock
           "where is the budget?" (initChat "tinyllama"));
    [discriminate | reflexivity].
Defined.

(** C3, amended, at the pending session and at a fresh one. *)
Lemma sendQuery_gate_witness :
  (sending pendingChat = true
   /\ sendQuery_begin sampleClock "and the summary?" pendingChat = pendingChat)
  /\ ("where is the budget?" <> ""
      /\ sending (initChat "tinyllama") = false
      /\ wellFormed (initChat "tinyllama")
      /\ abortRef pendingChat = [0]
      /\ 0 ∉ abortRef (initChat "tinyllama")).
Proof.
  split.
  - split; [reflexivity |].
    apply (proj1 (sendQuery_gate sampleClock "and the summary?" pendingChat)).
    reflexivity.
  - split; [discriminate |]. split; [reflexivity |].
    split; [apply wellFormed_init |].
    destruct (proj2 (sendQuery_gate sampleClock "where is the budget?"
                       (initChat "tinyllama")))
      as (_ & Href & _ & _ & Hfresh); [discriminate | reflexivity |].
    split; [exact Href | apply Hfresh, wellFormed_init].
Defined.

(** C1, amended, at a response with an answer and two sources, and at a
    response whose answer is the empty string. *)
Lemma sendQuery_resolved_with_answer_witness :
  (answer fullAnswer = Some "See budget.xlsx"
   /\ "See budget.xlsx" <> ""
   /\ isPending {| role := assistant; content := placeholderMarkup;
                   time := Some "10:15:01" |} = true
   /\ nonePending []
   /\ exists c',
        sendQuery_settle sampleClock 0 (Resolved fullAnswer) pendingChat = Some c'
        /\ messages (store c') =
             [greeting;
              {| role := user; content := "<div>where is the budget?</div>";
                 time := Some "10:15:00" |}]
             ++ {| role := assistant; content := "<div>See budget.xlsx</div>";
                   time := Some "10:15:00" |} :: []
        /\ sources (store c') = [summaryTxt; budgetXlsx])
  /\ (answer emptyAnswer = Some ""
      /\ exists c',
           sendQuery_settle sampleClock 0 (Resolved emptyAnswer) pendingChat = Some c'
           /\ messages (store c') = messages (store pendingChat)
           /\ sources (store c') = [summaryTxt; budgetXlsx]).
Proof.
  split.
  - split; [reflexivity |]. split; [discriminate |]. split; [reflexivity |].
    split; [constructor |].
    destruct (proj1 (sendQuery_resolved_with_answer sampleClock 0 fullAnswer
                       "See budget.xlsx" pendingChat eq_refl)
                ltac:(discriminate) _ _ _ pendingChat_messages eq_refl
                (List.Forall_nil _))
      as (c' & Hc' & Hm & Hs & _).
    exists c'. split; [exact Hc' |]. split; [exact Hm | exact Hs].
  - split; [reflexivity |].
    destruct (proj1 (proj2 (sendQuery_resolved_with_answer sampleClock 0
                              emptyAnswer "" pendingChat eq_refl)) eq_refl)
      as (c' & Hc' & Hm & Hs & _).
    exists c'. split; [exact Hc' |]. split; [| exact Hs].
    rewrite Hm. apply app_nil_r.
Defined.

(** C6 at a response with results and a markdown block only. *)
Lemma sendQuery_resolved_without_answer_witness :
  answer noAnswer = None
  /\ exists c',
       sendQuery_settle sampleClock 0 (Resolved noAnswer) pendingChat = Some c'
       /\ messages (store c') !! 2 =
            Some {| role := assistant; content := placeholderMarkup;
                    time := Some "10:15:01" |}
       /\ sources (store c') = [budgetXlsx].
Proof.
  split; [reflexivity |].
  destruct (sendQuery_resolved_without_answer sampleClock 0 noAnswer pendingChat
              eq_refl)
    as (c' & Hc' & _ & Hkeep & Hs).
  exists c'. split; [exact Hc' |]. split; [| exact Hs].
  apply Hkeep. reflexivity.
Defined.

(** C5 at the pending session. *)
Lemma cancelPending_replaces_placeholder_witness :
  wellFormed pendingChat
  /\ isPending {| role := assistant; content := placeholderMarkup;
                  time := Some "10:15:01" |} = true
  /\ nonePending []
  /\ exists c',
       cancelPending sampleClock 0 pendingChat = Some c'
       /\ signals c' !! 0 = Some true
       /\ abortRef c' = []
       /\ sending c' = false
       /\ last (messages (store c')) =
            Some {| role := assistant;
                    content := "<div class='muted'>Request canceled.</div>";
                    time := Some "10:15:00" |}
       /\ sources (store c') = sources (store pendingChat).
Proof.
  split; [exact pendingChat_wellFormed |]. split; [reflexivity |].
  split; [constructor |].
  destruct (cancelPending_replaces_placeholder sampleClock 0 pendingChat _ _ _
              pendingChat_wellFormed pendingChat_messages eq_refl (List.Forall_nil _))
    as (c' & Hc' & Hab & Href & Hsend & Hm & Hs).
  exists c'. split; [exact Hc' |].
  split; [apply Hab; repeat constructor |].
  split; [exact Href |]. split; [exact Hsend |].
  split; [rewrite Hm; reflexivity | exact Hs].
Defined.

(** C7, amended, at two filters over the sample list, whose strings are
    ASCII. *)
Lemma visibleSources_filter_witness :
  (forall s, asciiLowerCase s = "" <-> s = "")
  /\ (sampleSources = [summaryTxt] ++ budgetXlsx :: []
      /\ containsCI asciiLowerCase (orEmpty (path budgetXlsx)) "XLSX"
      /\ (forall s', s' ∈ [summaryTxt] ++ [] -> ~ specVisible asciiLowerCase "XLSX" s')
      /\ visibleSources asciiLowerCase "XLSX" sampleSources = [budgetXlsx])
  /\ ((forall s, s ∈ sampleSources -> ~ specVisible asciiLowerCase "invoice" s)
      /\ visibleSources asciiLowerCase "invoice" sampleSources = [])
  /\ keepsExactly (specVisible asciiLowerCase "budget") sampleSources
       [summaryTxt; budgetXlsx].
Proof.
  assert (containsCI asciiLowerCase (orEmpty (path budgetXlsx)) "XLSX") as H1.
  { apply includes_folded_spec. reflexivity. }
  assert (forall s', s' ∈ [summaryTxt] ++ [] ->
                     ~ specVisible asciiLowerCase "XLSX" s') as H2.
  { intros s' Hs' Hv. apply (matchesFilter_spec _ asciiLowerCase_empty) in Hv.
    apply list_elem_of_singleton in Hs'. subst s'. discriminate Hv. }
  assert (forall s, s ∈ sampleSources -> ~ specVisible asciiLowerCase "invoice" s)
    as H3.
  { intros s Hs Hv. apply (matchesFilter_spec _ asciiLowerCase_empty) in Hv.
    unfold sampleSources in Hs. rewrite !elem_of_cons in Hs.
    destruct Hs as [->|[->|Hs]]; [discriminate Hv | discriminate Hv | inversion Hs]. }
  split; [exact asciiLowerCase_empty |].
  split; [| split].
  - split; [reflexivity |]. split; [exact H1 |]. split; [exact H2 |].
    apply (proj1 (proj2 (proj2 (proj2 (proj2
             (visibleSources_filter asciiLowerCase asciiLowerCase_empty
                "XLSX" sampleSources)))))
             [summaryTxt] budgetXlsx []); [reflexivity | exact H1 | exact H2].
  - split; [exact H3 |].
    apply (proj2 (proj2 (proj2 (proj2 (proj2
             (visibleSources_filter asciiLowerCase asciiLowerCase_empty
                "invoice" sampleSources)))))).
    exact H3.
  - apply (proj1 (visibleSources_filter asciiLowerCase asciiLowerCase_empty
                    "budget" sampleSources)).
Defined.

(** C8 at the pending session and at the initial store. *)
Lemma replaceLastAssistant_spec_witness :
  (isPending {| role := assistant; content := placeholderMarkup;
                time := Some "10:15:01" |} = true
   /\ nonePending []
   /\ replaceLastAssistant "<div>done</div>" "10:15:02" (store pendingChat) =
        Some {| messages :=
                  [greeting;
                   {| role := user; content := "<div>where is the budget?</div>";
                      time := Some "10:15:00" |}]
                  ++ {| role := assistant; content := "<div>done</div>";
                        time := Some "10:15:02" |} :: [];
                sources := [] |})
  /\ (nonePending (messages initStore)
      /\ replaceLastAssistant "<div>done</div>" "10:15:02" initStore =
           Some {| messages :=
                     [greeting;
                      {| role := assistant; content := "<div>done</div>";
                         time := Some "10:15:02" |}];
                   sources := [] |}).
Proof.
  split.
  - split; [reflexivity |]. split; [constructor |].
    apply (proj1 (replaceLastAssistant_spec "<div>done</div>" "10:15:02"
                    (store pendingChat)) _ _ _ pendingChat_messages eq_refl
             (List.Forall_nil _)).
  - assert (nonePending (messages initStore)) as H by (repeat constructor).
    split; [exact H |].
    apply (proj1 (proj2 (replaceLastAssistant_spec "<div>done</div>" "10:15:02"
                           initStore)) H).
Defined.

(** C9 along three store operations from the pending session. *)
Lemma store_operations_keep_roles_witness :
  store_steps (store pendingChat)
    (addMessage assistant "<pre>x</pre>" "10:15:03"
       (setSourceList sampleSources
          {| messages :=
               [greeting;
                {| role := user; content := "<div>where is the budget?</div>";
                   time := Some "10:15:00" |};
                {| role := assistant; content := "<div>done</div>";
                   time := Some "10:15:02" |}];
             sources := [] |}))
  /\ keepsExisting (messages (store pendingChat))
       [greeting;
        {| role := user; content := "<div>where is the budget?</div>";
           time := Some "10:15:00" |};
        {| role := assistant; content := "<div>done</div>";
           time := Some "10:15:02" |};
        {| role := assistant; content := "<pre>x</pre>";
           time := Some "10:15:03" |}].
Proof.
  assert (store_steps (store pendingChat)
            (addMessage assistant "<pre>x</pre>" "10:15:03"
               (setSourceList sampleSources
                  {| messages :=
                       [greeting;
                        {| role := user; content := "<div>where is the budget?</div>";
                           time := Some "10:15:00" |};
                        {| role := assistant; content := "<div>done</div>";
                           time := Some "10:15:02" |}];
                     sources := [] |}))) as Hsteps.
  { eapply steps_then; [eapply steps_then; [eapply steps_then |] |].
    - apply steps_refl.
    - apply (step_replace "<div>done</div>" "10:15:02"). reflexivity.
    - apply step_sources.
    - apply step_add. }
  split; [exact Hsteps |].
  apply (proj2 (proj2 (proj2 (store_operations_keep_roles _ _))) Hsteps).
Defined.

(** * Further properties of the client *)

(** ** The completion of a request, whatever its outcome *)

Section Completion.

Variable clock : nat -> string.

Lemma store_steps_keepsExisting (st st' : Store) :
  store_steps st st' -> keepsExisting (messages st) (messages st').
Proof.
  induction 1 as [st|st1 st2 st3 _ IH Hstep]; [apply keepsExisting_refl |].
  eapply keepsExisting_trans; [exact IH | now apply store_step_keepsExisting].
Qed.

(** What a replacement leaves alone. *)
Lemma doReplaceLastAssistant_fields (m : string) (c c' : Chat) :
  doReplaceLastAssistant clock m c = Some c' ->
  selectedModel c' = selectedModel c /\ input c' = input c
  /\ sending c' = sending c /\ editingIndex c' = editingIndex c
  /\ editingText c' = editingText c /\ abortRef c' = abortRef c
  /\ signals c' = signals c /\ inflight c' = inflight c
  /\ sources (store c') = sources (store c)
  /\ store_step (store c) (store c').
Proof.
  unfold doReplaceLastAssistant.
  destruct (replaceLastAssistant m (clock (tick c)) (store c)) as [st|] eqn:E;
    simpl; intros H; [| discriminate H].
  injection H as <-. simpl. repeat split.
  - eapply replaceLastAssistant_sources, E.
  - eapply step_replace, E.
Qed.

Lemma doReplaceLastAssistant_total (m : string) (c : Chat) :
  is_Some (doReplaceLastAssistant clock m c).
Proof.
  unfold doReplaceLastAssistant.
  destruct (replaceLastAssistant_total m (clock (tick c)) (store c)) as [st ->].
  simpl. eauto.
Qed.

(** The part of a completion before [finally]: it acts on the store only,
    through store operations. *)
Lemma onResolved_fields (data : AskResponse) (c c' : Chat) :
  onResolved clock data c = Some c' ->
  abortRef c' = abortRef c /\ signals c' = signals c /\ inflight c' = inflight c
  /\ store_steps (store c) (store c').
Proof.
  unfold onResolved.
  destruct (match answer data with
            | Some a =>
                if truthy a then doReplaceLastAssistant clock (answerMarkup a) c
                else Some c
            | None => Some c
            end) as [c0|] eqn:E0; simpl; intros H; [| discriminate H].
  injection H as <-.
  assert (abortRef c0 = abortRef c /\ signals c0 = signals c
          /\ inflight c0 = inflight c /\ store_steps (store c) (store c0))
    as (<- & <- & <- & Hst).
  { destruct (answer data) as [a|]; [destruct (truthy a) |].
    - apply doReplaceLastAssistant_fields in E0.
      destruct E0 as (_ & _ & _ & _ & _ & -> & -> & -> & _ & Hstep).
      repeat split. eapply steps_then; [apply steps_refl | exact Hstep].
    - injection E0 as <-. repeat split. apply steps_refl.
    - injection E0 as <-. repeat split. apply steps_refl. }
  destruct (markdown data) as [md|]; [destruct (truthy md) |]; simpl;
    repeat split.
  - eapply steps_then; [eapply steps_then; [exact Hst |] |].
    + apply (step_add assistant (markdownMarkup md) (clock (tick c0))).
    + apply step_sources.
  - eapply steps_then; [exact Hst | apply step_sources].
  - eapply steps_then; [exact Hst | apply step_sources].
Qed.

Lemma onResolved_total (data : AskResponse) (c : Chat) :
  is_Some (onResolved clock data c).
Proof.
  unfold onResolved.
  destruct (answer data) as [a|]; [destruct (truthy a) |]; simpl; eauto.
  destruct (doReplaceLastAssistant_total (answerMarkup a) c) as [c0 ->].
  simpl. eauto.
Qed.

Lemma onRejected_fields (e : JsError) (c c' : Chat) :
  onRejected clock e c = Some c' ->
  abortRef c' = abortRef c /\ signals c' = signals c /\ inflight c' = inflight c
  /\ sources (store c') = sources (store c)
  /\ store_steps (store c) (store c').
Proof.
  unfold onRejected. intros H.
  destruct (String.eqb (err_name e) "AbortError");
    apply doReplaceLastAssistant_fields in H;
    destruct H as (_ & _ & _ & _ & _ & -> & -> & -> & -> & Hstep);
    repeat split; (eapply steps_then; [apply steps_refl | exact Hstep]).
Qed.

Lemma onRejected_total (e : JsError) (c : Chat) :
  is_Some (onRejected clock e c).
Proof.
  unfold onRejected.
  destruct (String.eqb (err_name e) "AbortError");
    apply doReplaceLastAssistant_total.
Qed.

Lemma removeFirst_absent (k : nat) (l : list nat) :
  k ∉ l -> removeFirst k l = l.
Proof.
  induction l as [|x l IH]; simpl; intros H; [reflexivity |].
  rewrite not_elem_of_cons in H. destruct H as [Hx Hl].
  destruct (Nat.eqb_spec x k) as [->|_]; [congruence |].
  now rewrite (IH Hl).
Qed.

Lemma removeFirst_elem_of (k x : nat) (l : list nat) :
  x ∈ removeFirst k l -> x ∈ l.
Proof.
  induction l as [|y l IH]; simpl; [auto |].
  destruct (Nat.eqb_spec y k) as [->|_]; rewrite ?elem_of_cons; [auto |].
  intros [->|H]; auto.
Qed.

Lemma removeFirst_other (k x : nat) (l : list nat) :
  x <> k -> x ∈ l -> x ∈ removeFirst k l.
Proof.
  intros Hne. induction l as [|y l IH]; simpl; [auto |].
  rewrite elem_of_cons.
  destruct (Nat.eqb_spec y k) as [->|_]; rewrite ?elem_of_cons;
    intros [->|H]; auto; congruence.
Qed.

Lemma removeFirst_NoDup (k : nat) (l : list nat) :
  NoDup l -> NoDup (removeFirst k l) /\ k ∉ removeFirst k l.
Proof.
  induction 1 as [|x l Hx Hl [IH1 IH2]]; simpl.
  - split; [constructor | apply not_elem_of_nil].
  - destruct (Nat.eqb_spec x k) as [->|Hne]; [auto |].
    split.
    + constructor; [| exact IH1]. intros H. apply Hx. eapply removeFirst_elem_of, H.
    + rewrite not_elem_of_cons. auto.
Qed.

Lemma removeFirst_last (k : nat) (l : list nat) :
  k ∉ l -> removeFirst k (l ++ [k]) = l.
Proof.
  induction l as [|x l IH]; simpl; intros H.
  - now rewrite Nat.eqb_refl.
  - rewrite not_elem_of_cons in H. destruct H as [Hx Hl].
    destruct (Nat.eqb_spec x k) as [->|_]; [congruence |].
    now rewrite (IH Hl).
Qed.

(** X1: a settling call of [sendQuery] always completes, with any outcome
    and in any state; its [finally] clears the sending flag, closes the edit
    box and takes its own controller, and no other, off the list (nothing
    when a cancel has emptied the list before); the aborted flags are not
    touched and the messages that exist keep their index and role. *)
Theorem sendQuery_settle_always_finishes (controller : nat) (o : Outcome) (c : Chat) :
  exists c',
    sendQuery_settle clock controller o c = Some c'
    /\ sending c' = false
    /\ editingIndex c' = None /\ editingText c' = ""
    /\ abortRef c' = removeFirst controller (abortRef c)
    /\ (forall k, k <> controller -> (k ∈ abortRef c' <-> k ∈ abortRef c))
    /\ (NoDup (abortRef c) -> controller ∉ abortRef c')
    /\ (controller ∉ abortRef c -> abortRef c' = abortRef c)
    /\ signals c' = signals c
    /\ keepsExisting (messages (store c)) (messages (store c')).
Proof.
  unfold sendQuery_settle.
  assert (exists c1,
             match o with
             | Resolved data => onResolved clock data c
             | Rejected e => onRejected clock e c
             end = Some c1
             /\ abortRef c1 = abortRef c /\ signals c1 = signals c
             /\ store_steps (store c) (store c1)) as (c1 & -> & Hab & Hsg & Hst).
  { destruct o as [data|e].
    - destruct (onResolved_total data c) as [c1 H1]. exists c1.
      apply onResolved_fields in H1 as H2. tauto.
    - destruct (onRejected_total e c) as [c1 H1]. exists c1.
      apply onRejected_fields in H1 as H2. tauto. }
  simpl. eexists. split; [reflexivity |]. simpl. rewrite Hab, Hsg.
  repeat split.
  - apply removeFirst_elem_of.
  - now apply removeFirst_other.
  - intros Hnd. now apply removeFirst_NoDup.
  - apply removeFirst_absent.
  - apply store_steps_keepsExisting, Hst.
Qed.

(** X2: a request that fails for another reason than an abort puts the error
    notice, with the message of the error escaped, in the place of the
    latest pending placeholder, and leaves the source list as it was. *)
Theorem sendQuery_failed_shows_error (controller : nat) (e : JsError) (c : Chat)
    (pre post : list Message) (p : Message) :
  err_name e <> "AbortError" ->
  messages (store c) = pre ++ p :: post ->
  isPending p = true ->
  nonePending post ->
  exists c',
    sendQuery_settle clock controller (Rejected e) c = Some c'
    /\ messages (store c') =
         pre ++ {| role := assistant;
                   content := "<div class='error'>Error: "
                              +:+ escapeHtml (err_message e) +:+ "</div>";
                   time := Some (clock (tick c)) |} :: post
    /\ sources (store c') = sources (store c)
    /\ sending c' = false.
Proof.
  intros Hname Hm Hp Hpost.
  unfold sendQuery_settle, onRejected.
  apply String.eqb_neq in Hname. rewrite Hname.
  rewrite (doReplaceLastAssistant_found clock _ c pre post p Hm Hp Hpost).
  simpl. eexists. repeat split.
Qed.

Lemma filter_other_signals (k : nat) (l : list Request) :
  Forall (fun r => req_signal r < k) l ->
  List.filter (fun r => negb (Nat.eqb (req_signal r) k)) l = l.
Proof.
  induction 1 as [|r l Hr Hl IH]; simpl; [reflexivity |].
  destruct (Nat.eqb_spec (req_signal r) k) as [E|_]; [lia |].
  simpl. now rewrite IH.
Qed.

(** X3: a question and its completion, together: from a state that is not
    sending and whose controllers and requests are objects of the heap, a
    non-empty question followed by the settling of its request, with any
    outcome, leaves the controller list and the requests in flight as they
    were before the question, keeps every earlier message at its index with
    its role, and has the question right after them. *)
Theorem sendQuery_then_settle_restores (q : string) (o : Outcome) (c : Chat) :
  q <> "" ->
  sending c = false ->
  wellFormed c ->
  Forall (fun r => req_signal r < length (signals c)) (inflight c) ->
  exists c',
    sendQuery_settle clock (length (signals c)) o (sendQuery_begin clock q c) = Some c'
    /\ abortRef c' = abortRef c
    /\ inflight c' = inflight c
    /\ sending c' = false
    /\ keepsExisting (messages (store c)) (messages (store c'))
    /\ messages (store c') !! length (messages (store c)) =
         Some {| role := user; content := userMarkup q;
                 time := Some (clock (tick c)) |}.
Proof.
  intros Hq Hs Hwf Hfl.
  unfold sendQuery_settle.
  assert (exists c1,
             match o with
             | Resolved data => onResolved clock data (sendQuery_begin clock q c)
             | Rejected e => onRejected clock e (sendQuery_begin clock q c)
             end = Some c1
             /\ abortRef c1 = abortRef (sendQuery_begin clock q c)
             /\ inflight c1 = inflight (sendQuery_begin clock q c)
             /\ store_steps (store (sendQuery_begin clock q c)) (store c1))
    as (c1 & -> & Hab & Hin & Hst).
  { destruct o as [data|e].
    - destruct (onResolved_total data (sendQuery_begin clock q c)) as [c1 H1].
      exists c1. apply onResolved_fields in H1 as H2. tauto.
    - destruct (onRejected_total e (sendQuery_begin clock q c)) as [c1 H1].
      exists c1. apply onRejected_fields in H1 as H2. tauto. }
  apply store_steps_keepsExisting in Hst.
  rewrite (sendQuery_begin_accepted clock q c Hq Hs) in Hab, Hin, Hst.
  simpl in Hab, Hin, Hst.
  simpl. eexists. split; [reflexivity |]. simpl. rewrite Hab, Hin.
  split.
  { apply removeFirst_last. intros Hin'. unfold wellFormed in Hwf.
    rewrite Forall_forall in Hwf. specialize (Hwf _ Hin'). lia. }
  split.
  { rewrite List.filter_app. simpl. rewrite Nat.eqb_refl. simpl.
    rewrite app_nil_r. now apply filter_other_signals. }
  split; [reflexivity |].
  split.
  - eapply keepsExisting_trans; [| exact Hst]. apply keepsExisting_app.
  - destruct (Hst (length (messages (store c)))
                {| role := user; content := userMarkup q;
                   time := Some (clock (tick c)) |})
      as (m' & Hm' & _ & Hu).
    + rewrite lookup_app_r by lia. now rewrite Nat.sub_diag.
    + rewrite Hm'. f_equal. now apply Hu.
Qed.

End Completion.

Lemma sendQuery_settle_always_finishes_witness :
  NoDup (abortRef pendingChat)
  /\ exists c',
       sendQuery_settle sampleClock 0 (Resolved fullAnswer) pendingChat = Some c'
       /\ sending c' = false /\ 0 ∉ abortRef c'.
Proof.
  assert (NoDup (abortRef pendingChat)) as Hnd.
  { repeat constructor. apply not_elem_of_nil. }
  split; [exact Hnd |].
  destruct (sendQuery_settle_always_finishes sampleClock 0 (Resolved fullAnswer)
              pendingChat)
    as (c' & Hc' & Hs & _ & _ & _ & _ & Hrem & _).
  exists c'. auto.
Defined.

Lemma sendQuery_failed_shows_error_witness :
  "TypeError" <> "AbortError"
  /\ isPending {| role := assistant; content := placeholderMarkup;
                  time := Some "10:15:01" |} = true
  /\ nonePending []
  /\ exists c',
       sendQuery_settle sampleClock 0
         (Rejected {| err_name := "TypeError"; err_message := Some "Failed to fetch" |})
         pendingChat = Some c'
       /\ last (messages (store c')) =
            Some {| role := assistant;
                    content := "<div class='error'>Error: Failed to fetch</div>";
                    time := Some "10:15:00" |}.
Proof.
  split; [discriminate |]. split; [reflexivity |]. split; [constructor |].
  destruct (sendQuery_failed_shows_error sampleClock 0
              {| err_name := "TypeError"; err_message := Some "Failed to fetch" |}
              pendingChat _ _ _ ltac:(discriminate) pendingChat_messages eq_refl
              (List.Forall_nil _))
    as (c' & Hc' & Hm & _).
  exists c'. split; [exact Hc' |]. rewrite Hm. reflexivity.
Defined.

Lemma sendQuery_then_settle_restores_witness :
  "where is the budget?" <> ""
  /\ sending (initChat "tinyllama") = false
  /\ wellFormed (initChat "tinyllama")
  /\ Forall (fun r => req_signal r < length (signals (initChat "tinyllama")))
       (inflight (initChat "tinyllama"))
  /\ exists c',
       sendQuery_settle sampleClock 0 (Resolved fullAnswer) pendingChat = Some c'
       /\ abortRef c' = [] /\ inflight c' = [].
Proof.
  split; [discriminate |]. split; [reflexivity |].
  split; [apply wellFormed_init |]. split; [constructor |].
  destruct (sendQuery_then_settle_restores sampleClock "where is the budget?"
              (Resolved fullAnswer) (initChat "tinyllama")
              ltac:(discriminate) eq_refl (wellFormed_init _) (List.Forall_nil _))
    as (c' & Hc' & Hab & Hin & _).
  exists c'. auto.
Defined.

(** ** The pending marker *)

Lemma includes_between (a e b w : string) :
  includes e w = true -> includes (a +:+ e +:+ b) w = true.
Proof.
  rewrite !includes_spec. intros (pre & post & ->).
  exists (a +:+ pre), (post +:+ b). now rewrite !append_assoc.
Qed.

(** A word without special characters that occurs in a text occurs in the
    escaped text. *)
Lemma includes_escapeHtml (x w : string) :
  hasSpecial w = false -> includes x w = true ->
  includes (escapeHtml (Some x)) w = true.
Proof.
  intros Hw. rewrite !includes_spec. intros (pre & post & ->).
  exists (replaceSpecials pre), (replaceSpecials post).
  rewrite escapeHtml_replaceSpecials, !replaceSpecials_append.
  now rewrite (proj2 (replaceSpecials_fixpoint w) Hw).
Qed.

Lemma isPending_marker_word (r : option string) (a x b : string) :
  includes x "Thinking" = true \/ includes x "spinner" = true ->
  isPending {| role := assistant; content := a +:+ escapeHtml (Some x) +:+ b;
               time := r |} = true.
Proof.
  intros H. unfold isPending. cbn [role content].
  rewrite bool_decide_eq_true_2 by reflexivity.
  destruct H as [H|H].
  - apply (includes_escapeHtml x "Thinking" eq_refl), (includes_between a _ b) in H.
    now rewrite H.
  - apply (includes_escapeHtml x "spinner" eq_refl), (includes_between a _ b) in H.
    rewrite H. now rewrite orb_true_r.
Qed.

Lemma nonePending_count (l : list Message) : nonePending l -> pendingCount l = 0.
Proof.
  unfold pendingCount. induction 1 as [|m l Hm Hl IH]; simpl; [reflexivity |].
  now rewrite Hm.
Qed.

Lemma pendingCount_app (l1 l2 : list Message) :
  pendingCount (l1 ++ l2) = pendingCount l1 + pendingCount l2.
Proof. unfold pendingCount. now rewrite List.filter_app, length_app. Qed.

Lemma pendingCount_cons (m : Message) (l : list Message) :
  pendingCount (m :: l) = (if isPending m then 1 else 0) + pendingCount l.
Proof. unfold pendingCount. simpl. now destruct (isPending m). Qed.

Lemma pendingCount_two (l : list Message) (a b : Message) :
  pendingCount (l ++ [a; b]) =
    pendingCount l + ((if isPending a then 1 else 0) + (if isPending b then 1 else 0)).
Proof.
  rewrite pendingCount_app, !pendingCount_cons. unfold pendingCount at 2. simpl. lia.
Qed.

(** A message sequence has a last pending message, or none at all. *)
Lemma last_pending_split (l : list Message) :
  nonePending l
  \/ exists pre p post, l = pre ++ p :: post /\ isPending p = true /\ nonePending post.
Proof.
  induction l as [|m l IH]; [left; constructor |].
  destruct IH as [Hnone|(pre & p & post & -> & Hp & Hpost)].
  - destruct (isPending m) eqn:Hm.
    + right. exists [], m, l. auto.
    + left. now constructor.
  - right. exists (m :: pre), p, post. auto.
Qed.

(** X4: the pending test reads the content only.  An answer whose text holds
    the word Thinking or the word spinner is matched as a placeholder, so
    when it is the last message the next replacement overwrites the answer
    instead of appending. *)
Theorem answer_with_marker_word_is_overwritten (x newContent now t : string)
    (pre : list Message) (srcs : list Source) :
  includes x "Thinking" = true \/ includes x "spinner" = true ->
  isPending (assistantMessage (answerMarkup x) t) = true
  /\ replaceLastAssistant newContent now
       {| messages := pre ++ [assistantMessage (answerMarkup x) t];
          sources := srcs |} =
     Some {| messages := pre ++ [assistantMessage newContent now];
             sources := srcs |}.
Proof.
  intros H.
  assert (isPending (assistantMessage (answerMarkup x) t) = true) as Hp.
  { apply (isPending_marker_word (Some t) "<div>" x "</div>" H). }
  split; [exact Hp |].
  apply (replaceLastAssistant_found newContent now
           {| messages := pre ++ [assistantMessage (answerMarkup x) t];
              sources := srcs |} pre [] _ eq_refl Hp).
  constructor.
Qed.

(** X5: a replacement whose content does not itself match the marker uses
    up one pending message when there is one, the length staying the same,
    and appends one message when there is none. *)
Theorem replaceLastAssistant_consumes_one_pending (newContent now : string)
    (st st' : Store) :
  isPending (assistantMessage newContent now) = false ->
  replaceLastAssistant newContent now st = Some st' ->
  pendingCount (messages st') = pendingCount (messages st) - 1
  /\ length (messages st') =
       length (messages st) + (if pendingCount (messages st) is O then 1 else 0).
Proof.
  intros Hnew H.
  destruct (last_pending_split (messages st))
    as [Hnone|(pre & p & post & Hm & Hp & Hpost)].
  - rewrite (replaceLastAssistant_fallback _ _ _ Hnone) in H.
    injection H as <-. simpl.
    rewrite pendingCount_app, pendingCount_cons, Hnew, (nonePending_count _ Hnone).
    rewrite length_app. simpl. split; reflexivity.
  - rewrite (replaceLastAssistant_found _ _ _ _ _ _ Hm Hp Hpost) in H.
    injection H as <-. simpl. rewrite Hm.
    rewrite !pendingCount_app, !pendingCount_cons, Hnew, Hp.
    rewrite !length_app. simpl.
    replace (pendingCount pre + S (pendingCount post))
      with (S (pendingCount pre + pendingCount post)) by lia.
    split; lia.
Qed.

Section QuestionThenCancel.

Variable clock : nat -> string.

(** X6: a question and its cancellation, together: an accepted question
    adds one pending message; cancelling it leaves the earlier messages,
    the question and the cancellation notice, with as many pending messages
    as before the question, an empty controller list and the sources
    untouched. *)
Theorem sendQuery_then_cancel (q : string) (c : Chat) :
  q <> "" ->
  sending c = false ->
  pendingCount (messages (store (sendQuery_begin clock q c))) =
    S (pendingCount (messages (store c)))
  /\ exists c',
       cancelPending clock (length (signals c)) (sendQuery_begin clock q c) = Some c'
       /\ messages (store c') =
            messages (store c) ++
            [{| role := user; content := userMarkup q;
                time := Some (clock (tick c)) |};
             {| role := assistant; content := cancelNotice;
                time := Some (clock (tick c + 1 + 1)) |}]
       /\ pendingCount (messages (store c')) = pendingCount (messages (store c))
       /\ abortRef c' = []
       /\ sending c' = false
       /\ sources (store c') = sources (store c).
Proof.
  intros Hq Hs. rewrite (sendQuery_begin_accepted clock q c Hq Hs).
  split.
  - cbn [store messages]. rewrite pendingCount_two. simpl. lia.
  - unfold cancelPending, sendQuery_settle, onRejected. simpl.
    rewrite (doReplaceLastAssistant_found clock _ _
               (messages (store c) ++
                [{| role := user; content := userMarkup q;
                    time := Some (clock (tick c)) |}])
               []
               {| role := assistant; content := placeholderMarkup;
                  time := Some (clock (tick c + 1)) |}).
    + simpl. eexists. split; [reflexivity |]. simpl.
      split; [now rewrite <- app_assoc |].
      split; [| repeat split].
      rewrite <- app_assoc. cbn [app].
      rewrite (pendingCount_two (messages (store c))). simpl. lia.
    + simpl. now rewrite <- app_assoc.
    + reflexivity.
    + constructor.
Qed.

End QuestionThenCancel.

Lemma answer_with_marker_word_is_overwritten_witness :
  (includes "Thinking about it, see budget.xlsx" "Thinking" = true
   \/ includes "Thinking about it, see budget.xlsx" "spinner" = true)
  /\ replaceLastAssistant cancelNotice "10:20:00"
       {| messages :=
            [greeting] ++
            [assistantMessage (answerMarkup "Thinking about it, see budget.xlsx")
               "10:15:02"];
          sources := [] |} =
     Some {| messages := [greeting] ++ [assistantMessage cancelNotice "10:20:00"];
             sources := [] |}.
Proof.
  split; [left; reflexivity |].
  apply (answer_with_marker_word_is_overwritten
           "Thinking about it, see budget.xlsx" cancelNotice "10:20:00" "10:15:02"
           [greeting] []).
  left. reflexivity.
Defined.

Lemma replaceLastAssistant_consumes_one_pending_witness :
  isPending (assistantMessage cancelNotice "10:15:02") = false
  /\ replaceLastAssistant cancelNotice "10:15:02" (store pendingChat) =
       Some {| messages :=
                 [greeting;
                  {| role := user; content := "<div>where is the budget?</div>";
                     time := Some "10:15:00" |};
                  assistantMessage cancelNotice "10:15:02"];
               sources := [] |}
  /\ pendingCount
       [greeting;
        {| role := user; content := "<div>where is the budget?</div>";
           time := Some "10:15:00" |};
        assistantMessage cancelNotice "10:15:02"] =
     pendingCount (messages (store pendingChat)) - 1.
Proof.
  split; [reflexivity |]. split; [reflexivity |].
  apply (replaceLastAssistant_consumes_one_pending cancelNotice "10:15:02"
           (store pendingChat) _ eq_refl eq_refl).
Defined.

Lemma sendQuery_then_cancel_witness :
  "where is the budget?" <> ""
  /\ sending (initChat "tinyllama") = false
  /\ pendingCount (messages (store pendingChat)) =
       S (pendingCount (messages (store (initChat "tinyllama")))).
Proof.
  split; [discriminate |]. split; [reflexivity |].
  apply (sendQuery_then_cancel sampleClock "where is the budget?"
           (initChat "tinyllama")); [discriminate | reflexivity].
Defined.

(** ** The toolbar of the last question *)

Lemma lastUserLoop_spec (msgs : list Message) (n : nat) :
  (lastUserLoop msgs n = (-1)%Z
   /\ forall j m, j < n -> msgs !! j = Some m -> role m <> user)
  \/ (exists j m,
        j < n /\ lastUserLoop msgs n = Z.of_nat j
        /\ msgs !! j = Some m /\ role m = user
        /\ forall k m', j < k < n -> msgs !! k = Some m' -> role m' <> user).
Proof.
  induction n as [|n IH]; simpl.
  - left. split; [reflexivity | intros; lia].
  - destruct (msgs !! n) as [m|] eqn:Hm.
    + destruct (bool_decide (role m = user)) eqn:Hu.
      * apply bool_decide_eq_true in Hu. right. exists n, m.
        repeat split; auto; intros; lia.
      * apply bool_decide_eq_false in Hu.
        destruct IH as [[-> Hall]|(j & mj & Hj & -> & Hmj & Huj & Hafter)].
        -- left. split; [reflexivity |]. intros k mk Hk Hmk.
           destruct (decide (k = n)) as [->|Hne]; [congruence |].
           eapply Hall; [| exact Hmk]. lia.
        -- right. exists j, mj. repeat split; auto.
           intros k mk Hk Hmk.
           destruct (decide (k = n)) as [->|Hne]; [congruence |].
           eapply Hafter; [| exact Hmk]. lia.
    + destruct IH as [[-> Hall]|(j & mj & Hj & -> & Hmj & Huj & Hafter)].
      * left. split; [reflexivity |]. intros k mk Hk Hmk.
        destruct (decide (k = n)) as [->|Hne]; [congruence |].
        eapply Hall; [| exact Hmk]. lia.
      * right. exists j, mj. repeat split; auto.
        intros k mk Hk Hmk.
        destruct (decide (k = n)) as [->|Hne]; [congruence |].
        eapply Hafter; [| exact Hmk]. lia.
Qed.

(** The loop reads the roles only. *)
Lemma lastUserLoop_ext (l1 l2 : list Message) (n : nat) :
  (forall j, j < n -> role <$> (l1 !! j) = role <$> (l2 !! j)) ->
  lastUserLoop l1 n = lastUserLoop l2 n.
Proof.
  induction n as [|n IH]; intros H; simpl; [reflexivity |].
  specialize (H n ltac:(lia)) as Hn.
  rewrite IH by (intros; apply H; lia).
  destruct (l1 !! n) as [m1|], (l2 !! n) as [m2|]; simpl in Hn;
    try discriminate Hn; [| reflexivity].
  injection Hn as ->. reflexivity.
Qed.

Lemma lastUserIndex_app (l : list Message) (a : Message) :
  lastUserIndex (l ++ [a]) =
    if bool_decide (role a = user) then Z.of_nat (length l) else lastUserIndex l.
Proof.
  unfold lastUserIndex. rewrite length_app. simpl.
  replace (length l + 1) with (S (length l)) by lia. simpl.
  rewrite list_lookup_middle by reflexivity.
  destruct (bool_decide (role a = user)); [reflexivity |].
  apply lastUserLoop_ext. intros j Hj. now rewrite lookup_app_l.
Qed.

Lemma lastUserIndex_insert (l : list Message) (i : nat) (m new : Message) :
  l !! i = Some m -> role new = role m ->
  lastUserIndex (<[i := new]> l) = lastUserIndex l.
Proof.
  intros Hm Hr. unfold lastUserIndex. rewrite length_insert.
  apply lastUserLoop_ext. intros j Hj.
  destruct (decide (i = j)) as [->|Hne].
  - rewrite list_lookup_insert_eq by exact Hj. rewrite Hm. simpl. now rewrite Hr.
  - now rewrite list_lookup_insert_ne.
Qed.

Lemma replaceLastAssistant_lastUserIndex (c now : string) (st st' : Store) :
  replaceLastAssistant c now st = Some st' ->
  lastUserIndex (messages st') = lastUserIndex (messages st).
Proof.
  intros H.
  destruct (replaceLastAssistant_cases _ _ _ _ H) as [->|(i & m & Hm & Hr & ->)].
  - now rewrite lastUserIndex_app.
  - eapply lastUserIndex_insert; [exact Hm | now rewrite Hr].
Qed.

Section Toolbar.

Variable clock : nat -> string.

Lemma doReplaceLastAssistant_lastUserIndex (m : string) (c c' : Chat) :
  doReplaceLastAssistant clock m c = Some c' ->
  lastUserIndex (messages (store c')) = lastUserIndex (messages (store c)).
Proof.
  unfold doReplaceLastAssistant.
  destruct (replaceLastAssistant m (clock (tick c)) (store c)) as [st|] eqn:E;
    simpl; intros H; [| discriminate H].
  injection H as <-. simpl. eapply replaceLastAssistant_lastUserIndex, E.
Qed.

Lemma sendQuery_settle_lastUserIndex (controller : nat) (o : Outcome) (c c' : Chat) :
  sendQuery_settle clock controller o c = Some c' ->
  lastUserIndex (messages (store c')) = lastUserIndex (messages (store c)).
Proof.
  unfold sendQuery_settle.
  destruct (match o with
            | Resolved data => onResolved clock data c
            | Rejected e => onRejected clock e c
            end) as [c1|] eqn:E; simpl; intros H; [| discriminate H].
  injection H as <-. simpl.
  destruct o as [data|e].
  - unfold onResolved in E.
    destruct (match answer data with
              | Some a =>
                  if truthy a then doReplaceLastAssistant clock (answerMarkup a) c
                  else Some c
              | None => Some c
              end) as [c0|] eqn:E0; simpl in E; [| discriminate E].
    injection E as <-.
    assert (lastUserIndex (messages (store c0)) = lastUserIndex (messages (store c)))
      as <-.
    { destruct (answer data) as [a|]; [destruct (truthy a) |].
      - eapply doReplaceLastAssistant_lastUserIndex, E0.
      - now injection E0 as <-.
      - now injection E0 as <-. }
    destruct (markdown data) as [md|]; [destruct (truthy md) |]; simpl;
      try reflexivity.
    now rewrite lastUserIndex_app.
  - unfold onRejected in E.
    destruct (String.eqb (err_name e) "AbortError");
      eapply doReplaceLastAssistant_lastUserIndex, E.
Qed.

(** X7: the test of the toolbar (copy and edit buttons) holds for the
    message at index [i] exactly when it is a user message and no user
    message comes after it; and, for every list, the empty one too,
    [lastUserIndex] is [-1] exactly when there is no user message. *)
Theorem showsToolbar_on_last_user_message (msgs : list Message) :
  (forall i m,
      msgs !! i = Some m ->
      (showsToolbar msgs i m = true <->
         role m = user
         /\ forall k m', i < k -> msgs !! k = Some m' -> role m' <> user))
  /\ (lastUserIndex msgs = (-1)%Z <-> forall x, x ∈ msgs -> role x <> user).
Proof.
  unfold showsToolbar, lastUserIndex.
  destruct (lastUserLoop_spec msgs (length msgs))
    as [[-> Hall]|(j & mj & Hj & -> & Hmj & Huj & Hafter)].
  - split.
    + intros i m Hm. split.
      * intros H. apply andb_true_iff in H. destruct H as [H _].
        apply Z.eqb_eq in H. lia.
      * intros [Hu _]. exfalso. eapply Hall; [| exact Hm | exact Hu].
        eauto using lookup_lt_Some.
    + split; [| reflexivity]. intros _ x Hx.
      apply list_elem_of_lookup in Hx. destruct Hx as [k Hk].
      eapply Hall; [| exact Hk]. eauto using lookup_lt_Some.
  - split.
    + intros i m Hm.
      rewrite andb_true_iff, Z.eqb_eq, bool_decide_eq_true. split.
      * intros [Hi Hu]. apply Nat2Z.inj in Hi. subst j.
        split; [exact Hu |]. intros k m' Hk Hm'.
        eapply Hafter; [| exact Hm']. split; [lia |]. eauto using lookup_lt_Some.
      * intros [Hu Hlater]. split; [| exact Hu]. f_equal.
        destruct (Nat.lt_trichotomy i j) as [Hlt|[->|Hgt]]; [| reflexivity |].
        -- exfalso. eapply Hlater; [exact Hlt | exact Hmj | exact Huj].
        -- exfalso. eapply Hafter; [| exact Hm | exact Hu].
           split; [lia |]. eauto using lookup_lt_Some.
    + split; [lia |]. intros Hno. exfalso.
      eapply Hno; [| exact Huj]. eapply list_elem_of_lookup_2, Hmj.
Qed.

(** X8: an accepted question takes the toolbar: it is the last user message
    as soon as it is sent; and no completion of a request, whatever its
    outcome, moves the toolbar. *)
Theorem toolbar_follows_the_question (q : string) (c : Chat) :
  q <> "" ->
  sending c = false ->
  lastUserIndex (messages (store (sendQuery_begin clock q c))) =
    Z.of_nat (length (messages (store c)))
  /\ forall controller o c1 c',
       sendQuery_settle clock controller o c1 = Some c' ->
       lastUserIndex (messages (store c')) = lastUserIndex (messages (store c1)).
Proof.
  intros Hq Hs. split; [| apply sendQuery_settle_lastUserIndex].
  rewrite (sendQuery_begin_accepted clock q c Hq Hs). cbn [store messages].
  change [?a; ?b] with ([a] ++ [b]). rewrite app_assoc.
  rewrite !lastUserIndex_app. simpl. reflexivity.
Qed.

End Toolbar.

Lemma showsToolbar_on_last_user_message_witness :
  (messages (store pendingChat) !! 1 =
     Some {| role := user; content := "<div>where is the budget?</div>";
             time := Some "10:15:00" |}
   /\ showsToolbar (messages (store pendingChat)) 1
        {| role := user; content := "<div>where is the budget?</div>";
           time := Some "10:15:00" |} = true
   /\ lastUserIndex (messages (store pendingChat)) <> (-1)%Z)
  /\ ((forall x : Message, x ∈ [] -> role x <> user)
      /\ lastUserIndex [] = (-1)%Z).
Proof.
  split.
  - split; [reflexivity |]. split; [reflexivity |].
    intros H.
    pose proof (proj1 (proj2 (showsToolbar_on_last_user_message
                                (messages (store pendingChat)))) H) as Hno.
    eapply Hno; [apply list_elem_of_lookup_2 with 1 |]; reflexivity.
  - assert (forall x : Message, x ∈ [] -> role x <> user) as Hnone.
    { intros x Hx. inversion Hx. }
    split; [exact Hnone |].
    apply (proj2 (proj2 (showsToolbar_on_last_user_message [])) Hnone).
Defined.

Lemma toolbar_follows_the_question_witness :
  "where is the budget?" <> ""
  /\ sending (initChat "tinyllama") = false
  /\ lastUserIndex (messages (store pendingChat)) = 1%Z.
Proof.
  split; [discriminate |]. split; [reflexivity |].
  apply (toolbar_follows_the_question sampleClock "where is the budget?"
           (initChat "tinyllama")); [discriminate | reflexivity].
Defined.

(** ** The edit in place *)

Section EditInPlace.

Variable clock : nat -> string.

(** [String.prototype.trim]. *)
Variable trim : string -> string.

(** A settling call, field by field. *)
Lemma sendQuery_settle_result (controller : nat) (o : Outcome) (c : Chat) :
  exists c',
    sendQuery_settle clock controller o c = Some c'
    /\ sending c' = false /\ editingIndex c' = None /\ editingText c' = ""
    /\ abortRef c' = removeFirst controller (abortRef c)
    /\ signals c' = signals c
    /\ inflight c' =
         List.filter (fun r => negb (Nat.eqb (req_signal r) controller)) (inflight c)
    /\ store_steps (store c) (store c').
Proof.
  unfold sendQuery_settle.
  assert (exists c1,
             match o with
             | Resolved data => onResolved clock data c
             | Rejected e => onRejected clock e c
             end = Some c1
             /\ abortRef c1 = abortRef c /\ signals c1 = signals c
             /\ inflight c1 = inflight c
             /\ store_steps (store c) (store c1))
    as (c1 & -> & Hab & Hsg & Hin & Hst).
  { destruct o as [data|e].
    - destruct (onResolved_total clock data c) as [c1 H1]. exists c1.
      apply onResolved_fields in H1 as H2. tauto.
    - destruct (onRejected_total clock e c) as [c1 H1]. exists c1.
      apply onRejected_fields in H1 as H2. tauto. }
  simpl. eexists. split; [reflexivity |]. simpl. rewrite Hab, Hsg, Hin.
  repeat split. exact Hst.
Qed.

(** X9: the edit box.  Clicking the edit button of a question stored by
    [sendQuery] fills the box with the escaped question.  Saving does
    nothing when the trimmed text is empty or a request is being sent;
    otherwise it sends the trimmed text as a new question after the
    messages that exist, the edited message itself staying as it was, and
    the completion of that request, whatever its outcome, closes the box. *)
Theorem handleEditSave_sends_a_new_question (c : Chat) :
  (forall i q t,
      editingText
        (handleEditClick i {| role := user; content := userMarkup q; time := t |} c)
      = escapeHtml (Some q))
  /\ (trim (editingText c) = "" \/ sending c = true ->
      handleEditSave clock trim c = c)
  /\ (trim (editingText c) <> "" -> sending c = false ->
      forall o, exists c',
        sendQuery_settle clock (length (signals c)) o (handleEditSave clock trim c)
          = Some c'
        /\ editingIndex c' = None /\ editingText c' = ""
        /\ keepsExisting (messages (store c)) (messages (store c'))
        /\ messages (store c') !! length (messages (store c)) =
             Some {| role := user; content := userMarkup (trim (editingText c));
                     time := Some (clock (tick c)) |}).
Proof.
  split; [| split].
  - intros i q t. unfold handleEditClick. cbn [editingText content].
    apply stripHtml_userMarkup.
  - unfold handleEditSave. intros [->|Hs]; [reflexivity |].
    destruct (truthy (trim (editingText c))); simpl; [| reflexivity].
    now apply sendQuery_begin_blocked.
  - intros Ht Hs o. unfold handleEditSave.
    rewrite (truthy_nonempty _ Ht). simpl.
    destruct (sendQuery_settle_result (length (signals c)) o
                (sendQuery_begin clock (trim (editingText c)) c))
      as (c' & Hc' & _ & Hi & Htxt & _ & _ & _ & Hst).
    exists c'. split; [exact Hc' |]. split; [exact Hi |]. split; [exact Htxt |].
    apply store_steps_keepsExisting in Hst.
    rewrite (sendQuery_begin_accepted clock _ c Ht Hs) in Hst. simpl in Hst.
    split.
    + eapply keepsExisting_trans; [| exact Hst]. apply keepsExisting_app.
    + destruct (Hst (length (messages (store c)))
                  {| role := user; content := userMarkup (trim (editingText c));
                     time := Some (clock (tick c)) |})
        as (m' & Hm' & _ & Hu).
      * rewrite lookup_app_r by lia. now rewrite Nat.sub_diag.
      * rewrite Hm'. f_equal. now apply Hu.
Qed.

End EditInPlace.

(** The edit box at a question with a special character, the text being
    saved as it is (it has no outer white space for [trim] to remove). *)
Lemma handleEditSave_sends_a_new_question_witness :
  editingText editingChat = "a&lt;b"
  /\ (fun s : string => s) (editingText editingChat) <> ""
  /\ sending editingChat = false
  /\ exists c',
       sendQuery_settle sampleClock 0 (Rejected abortError)
         (handleEditSave sampleClock (fun s => s) editingChat) = Some c'
       /\ editingIndex c' = None
       /\ messages (store c') !! 1 =
            Some {| role := user; content := "<div>a&amp;lt;b</div>";
                    time := Some "10:15:00" |}.
Proof.
  split; [reflexivity |]. split; [discriminate |]. split; [reflexivity |].
  destruct (proj2 (proj2 (handleEditSave_sends_a_new_question sampleClock
                            (fun s => s) editingChat))
              ltac:(discriminate) eq_refl (Rejected abortError))
    as (c' & Hc' & Hi & _ & _ & Hm).
  exists c'. split; [exact Hc' |]. split; [exact Hi | exact Hm].
Defined.

(** ** The source panel *)

Lemma includes_trans (x y z : string) :
  includes x y = true -> includes y z = true -> includes x z = true.
Proof.
  rewrite !includes_spec. intros (p1 & q1 & ->) (p2 & q2 & ->).
  exists (p1 +:+ p2), (q2 +:+ q1). now rewrite !append_assoc.
Qed.

Lemma includes_empty_l (q : string) : includes "" q = true <-> q = "".
Proof.
  destruct q; simpl; split; auto; discriminate.
Qed.

Lemma filter_filter_narrower {A : Type} (P Q : A -> bool) (l : list A) :
  (forall x, P x = true -> Q x = true) ->
  List.filter P (List.filter Q l) = List.filter P l.
Proof.
  intros H. induction l as [|x l IH]; simpl; [reflexivity |].
  destruct (Q x) eqn:HQ; simpl.
  - now rewrite IH.
  - destruct (P x) eqn:HP; [| exact IH].
    apply H in HP. congruence.
Qed.

Section FilterText.

(** [String.prototype.toLowerCase], with the one fact the proofs use: it gives
    the empty string for the empty string and for no other string. *)
Variable toLowerCase : string -> string.

Hypothesis toLowerCase_empty : forall s, toLowerCase s = "" <-> s = "".

Lemma truthy_toLowerCase (s : string) : truthy (toLowerCase s) = truthy s.
Proof.
  destruct s as [|c s].
  - now rewrite (proj2 (toLowerCase_empty "") eq_refl).
  - destruct (toLowerCase (String c s)) eqn:E; [| reflexivity].
    apply (proj1 (toLowerCase_empty _)) in E. discriminate E.
Qed.

Lemma matchesFilter_folded (f1 f2 : string) (s : Source) :
  toLowerCase f1 = toLowerCase f2 ->
  matchesFilter toLowerCase f1 s = matchesFilter toLowerCase f2 s.
Proof.
  intros H. unfold matchesFilter.
  rewrite <- (truthy_toLowerCase f1), <- (truthy_toLowerCase f2), H.
  reflexivity.
Qed.

(** A filter whose lower case contains the lower case of another one
    matches fewer entries. *)
Lemma matchesFilter_narrower (f f' : string) (s : Source) :
  includes (toLowerCase f') (toLowerCase f) = true ->
  matchesFilter toLowerCase f' s = true -> matchesFilter toLowerCase f s = true.
Proof.
  intros Hsub. unfold matchesFilter.
  destruct (truthy f) eqn:Hf; [| reflexivity]. simpl.
  destruct (truthy f') eqn:Hf'; simpl.
  - rewrite !orb_true_iff.
    intros [[H|H]|H]; eauto using includes_trans.
  - destruct f'; [| discriminate Hf'].
    rewrite (proj2 (toLowerCase_empty "") eq_refl) in Hsub.
    apply (proj1 (includes_empty_l _)) in Hsub.
    apply (proj1 (toLowerCase_empty _)) in Hsub.
    subst f. discriminate Hf.
Qed.

(** X10: the case of the letters of the filter does not matter: two filters
    that are equal once in lower case show the same entries. *)
Theorem visibleSources_ignores_filter_case (f1 f2 : string) (l : list Source) :
  toLowerCase f1 = toLowerCase f2 ->
  visibleSources toLowerCase f1 l = visibleSources toLowerCase f2 l.
Proof.
  intros H. unfold visibleSources.
  induction l as [|s l IH]; simpl; [reflexivity |].
  now rewrite (matchesFilter_folded f1 f2 s H), IH.
Qed.

(** X11: when the lower case of the filter [f] is a segment of the lower
    case of the filter [f'], the entries shown for [f'] are among the
    entries shown for [f], in the same order, and filtering the entries of
    [f] by [f'] gives the entries of [f']. *)
Theorem visibleSources_narrows (f f' : string) (l : list Source) :
  includes (toLowerCase f') (toLowerCase f) = true ->
  visibleSources toLowerCase f' (visibleSources toLowerCase f l) =
    visibleSources toLowerCase f' l
  /\ visibleSources toLowerCase f' l `sublist_of` visibleSources toLowerCase f l.
Proof.
  intros H.
  assert (visibleSources toLowerCase f' (visibleSources toLowerCase f l) =
          visibleSources toLowerCase f' l) as E.
  { unfold visibleSources. apply filter_filter_narrower.
    intros s. now apply matchesFilter_narrower. }
  split; [exact E |]. rewrite <- E. apply visibleSources_sublist.
Qed.

(** X12: an entry whose name, path and reason detail are all missing or
    empty is shown under the empty filter only. *)
Theorem entry_without_fields_needs_empty_filter (f : string) (s : Source) :
  orEmpty (name s) = "" ->
  orEmpty (path s) = "" ->
  orEmpty (reason_detail s) = "" ->
  (matchesFilter toLowerCase f s = true <-> f = "").
Proof.
  intros Hn Hp Hd. unfold matchesFilter. rewrite Hn, Hp, Hd.
  destruct f as [|c f]; cbn [truthy negb]; [tauto |]. cbv zeta.
  rewrite (proj2 (toLowerCase_empty "") eq_refl), !orb_diag.
  rewrite includes_empty_l, toLowerCase_empty. tauto.
Qed.

End FilterText.

(** The segment read by [lastSegmentFrom], in general. *)
Lemma lastSegmentFrom_spec (p seg : string) :
  occurs "/" seg = false -> occurs "\" seg = false ->
  exists dir,
    seg +:+ p = dir +:+ lastSegmentFrom seg p
    /\ occurs "/" (lastSegmentFrom seg p) = false
    /\ occurs "\" (lastSegmentFrom seg p) = false
    /\ (dir = "" \/ exists d sep, dir = d +:+ String sep "" /\ isSeparator sep = true).
Proof.
  revert seg. induction p as [|c p IH]; intros seg H1 H2; simpl.
  - exists "". simpl. rewrite append_empty_r. auto.
  - destruct (isSeparator c) eqn:Hc.
    + destruct (IH "" eq_refl eq_refl) as (dir & E & Hs1 & Hs2 & Hdir).
      simpl in E.
      exists (seg +:+ String c dir). rewrite append_assoc. simpl. rewrite <- E.
      split; [reflexivity |]. split; [exact Hs1 |]. split; [exact Hs2 |].
      right. destruct Hdir as [->|(d & sep & -> & Hsep)].
      * exists seg, c. auto.
      * exists (seg +:+ String c d), sep. rewrite append_assoc. auto.
    + unfold isSeparator in Hc. apply orb_false_elim in Hc. destruct Hc as [Hb Hf].
      destruct (IH (seg +:+ String c "")) as (dir & E & Hs1 & Hs2 & Hdir).
      * rewrite occurs_append, H1. simpl. now rewrite Hf.
      * rewrite occurs_append, H2. simpl. now rewrite Hb.
      * exists dir. rewrite append_assoc in E. simpl in E. auto.
Qed.

Lemma lastSegmentFrom_trailing (d seg : string) (sep : ascii) :
  isSeparator sep = true -> lastSegmentFrom seg (d +:+ String sep "") = "".
Proof.
  intros Hsep. revert seg. induction d as [|c d IH]; intros seg; simpl.
  - now rewrite Hsep.
  - destruct (isSeparator c); apply IH.
Qed.

Lemma lastSegmentFrom_plain (p seg : string) :
  occurs "/" p = false -> occurs "\" p = false ->
  lastSegmentFrom seg p = seg +:+ p.
Proof.
  revert seg. induction p as [|c p IH]; intros seg H1 H2; simpl.
  - now rewrite append_empty_r.
  - simpl in H1, H2. apply orb_false_elim in H1, H2.
    destruct H1 as [Hf H1], H2 as [Hb H2].
    unfold isSeparator. rewrite Hb, Hf. simpl.
    rewrite (IH _ H1 H2), append_assoc. reflexivity.
Qed.

(** X13: the title of an entry without a name is the end of its path after
    the last slash or backslash: the path is a directory part, empty or
    ending in a separator, followed by the title, and the title holds no
    separator; a path without separator is its own title, and a path that
    ends in a separator gives the empty title.  An entry with a non-empty
    name shows the name. *)
Theorem displayName_is_name_or_last_segment (s : Source) (p : string) :
  (forall n, name s = Some n -> n <> "" -> displayName s = n)
  /\ (orEmpty (name s) = "" -> displayName s = lastSegment (orEmpty (path s)))
  /\ (exists dir,
        p = dir +:+ lastSegment p
        /\ occurs "/" (lastSegment p) = false
        /\ occurs "\" (lastSegment p) = false
        /\ (dir = "" \/ exists d sep, dir = d +:+ String sep "" /\ isSeparator sep = true))
  /\ (occurs "/" p = false -> occurs "\" p = false -> lastSegment p = p)
  /\ (forall d sep, isSeparator sep = true -> lastSegment (d +:+ String sep "") = "").
Proof.
  split; [| split; [| split; [| split]]].
  - intros n Hn Hne. unfold displayName. rewrite Hn.
    now rewrite (truthy_nonempty n Hne).
  - unfold displayName, orEmpty.
    destruct (name s) as [n|]; [| reflexivity].
    destruct (truthy n) eqn:Hn; [| reflexivity].
    intros ->. discriminate Hn.
  - apply (lastSegmentFrom_spec p "" eq_refl eq_refl).
  - intros H1 H2. apply (lastSegmentFrom_plain p "" H1 H2).
  - intros d sep. apply lastSegmentFrom_trailing.
Qed.

Lemma visibleSources_ignores_filter_case_witness :
  (forall s, asciiLowerCase s = "" <-> s = "")
  /\ asciiLowerCase "BUDGET" = asciiLowerCase "budget"
  /\ visibleSources asciiLowerCase "BUDGET" sampleSources =
       visibleSources asciiLowerCase "budget" sampleSources.
Proof.
  split; [exact asciiLowerCase_empty |]. split; [reflexivity |].
  apply (visibleSources_ignores_filter_case asciiLowerCase asciiLowerCase_empty
           "BUDGET" "budget" sampleSources).
  reflexivity.
Defined.

Lemma visibleSources_narrows_witness :
  (forall s, asciiLowerCase s = "" <-> s = "")
  /\ includes (asciiLowerCase "Budget.x") (asciiLowerCase "budget") = true
  /\ visibleSources asciiLowerCase "Budget.x"
       (visibleSources asciiLowerCase "budget" sampleSources) =
     visibleSources asciiLowerCase "Budget.x" sampleSources.
Proof.
  split; [exact asciiLowerCase_empty |]. split; [reflexivity |].
  apply (visibleSources_narrows asciiLowerCase asciiLowerCase_empty
           "budget" "Budget.x" sampleSources).
  reflexivity.
Defined.

Lemma entry_without_fields_needs_empty_filter_witness :
  (forall s, asciiLowerCase s = "" <-> s = "")
  /\ orEmpty (name emptySource) = ""
  /\ orEmpty (path emptySource) = ""
  /\ orEmpty (reason_detail emptySource) = ""
  /\ (matchesFilter asciiLowerCase "budget" emptySource = true <-> "budget" = "").
Proof.
  split; [exact asciiLowerCase_empty |].
  split; [reflexivity |]. split; [reflexivity |]. split; [reflexivity |].
  apply (entry_without_fields_needs_empty_filter asciiLowerCase
           asciiLowerCase_empty "budget" emptySource); reflexivity.
Defined.

Lemma displayName_is_name_or_last_segment_witness :
  name budgetXlsx = Some "budget.xlsx"
  /\ "budget.xlsx" <> ""
  /\ displayName budgetXlsx = "budget.xlsx"
  /\ (occurs "/" "notes.txt" = false /\ occurs "\" "notes.txt" = false
      /\ lastSegment "notes.txt" = "notes.txt")
  /\ (isSeparator "\" = true /\ lastSegment ("C:\docs" +:+ String "\" "") = "").
Proof.
  split; [reflexivity |]. split; [discriminate |].
  split.
  { apply (proj1 (displayName_is_name_or_last_segment budgetXlsx "notes.txt")
             "budget.xlsx" eq_refl).
    discriminate. }
  split.
  { split; [reflexivity |]. split; [reflexivity |].
    apply (proj1 (proj2 (proj2 (proj2
             (displayName_is_name_or_last_segment budgetXlsx "notes.txt"))))
             eq_refl eq_refl). }
  split; [reflexivity |].
  apply (proj2 (proj2 (proj2 (proj2
           (displayName_is_name_or_last_segment budgetXlsx "notes.txt"))))
           "C:\docs" "\"%char eq_refl).
Defined.

(** ** More on stripping, escaping and fences *)

(** After a [<]: either no [>] follows and the text is kept, or the text up
    to the first [>] is dropped. *)
Lemma stripTags_open_cases (s buf : string) :
  (occurs ">" s = false /\ stripTags (Some buf) s = buf +:+ s)
  \/ (exists t r,
        s = t +:+ String ">" r /\ occurs ">" t = false
        /\ stripTags (Some buf) s = stripTags None r).
Proof.
  revert buf. induction s as [|c s IH]; intros buf; simpl.
  - left. now rewrite append_empty_r.
  - destruct (Ascii.eqb c ">") eqn:Hc.
    + right. apply Ascii.eqb_eq in Hc. subst c. exists "", s. auto.
    + destruct (IH (buf +:+ String c "")) as [[Hs E]|(t & r & -> & Ht & E)].
      * left. rewrite E, append_assoc. auto.
      * right. exists (String c t), r. simpl. rewrite Hc. auto.
Qed.

Lemma stripTags_no_tag_left (n : nat) :
  forall s a b,
    String.length s <= n ->
    stripTags None s = a +:+ String "<" b -> occurs ">" b = false.
Proof.
  induction n as [|n IH]; intros s a b Hlen H.
  - destruct s; [| simpl in Hlen; lia]. destruct a; discriminate H.
  - destruct s as [|c s]; [destruct a; discriminate H |].
    simpl in Hlen. simpl in H. destruct (Ascii.eqb c "<") eqn:Hc.
    + destruct (stripTags_open_cases s "<") as [[Hs E]|(t & r & -> & Ht & E)].
      * rewrite E in H.
        assert (occurs ">" (a +:+ String "<" b) = false) as Ho.
        { rewrite <- H. simpl. exact Hs. }
        rewrite occurs_append in Ho. apply orb_false_elim in Ho.
        destruct Ho as [_ Ho]. simpl in Ho. exact Ho.
      * rewrite E in H. apply (IH r a b); [| exact H].
        rewrite length_append in Hlen. simpl in Hlen. lia.
    + destruct a as [|x a]; simpl in H.
      * injection H as -> _. discriminate Hc.
      * injection H as _ H. apply (IH s a b); [lia | exact H].
Qed.

Lemma stripTags_fixed (x : string) :
  (forall a b, x = a +:+ String "<" b -> occurs ">" b = false) ->
  stripTags None x = x.
Proof.
  induction x as [|c x IH]; intros H; simpl; [reflexivity |].
  destruct (Ascii.eqb c "<") eqn:Hc.
  - apply Ascii.eqb_eq in Hc. subst c.
    apply stripTags_unclosed. apply (H "" x). reflexivity.
  - f_equal. apply IH. intros a b ->. apply (H (String c a) b). reflexivity.
Qed.

Lemma stripHtml_stripTags (s : string) : stripHtml (Some s) = stripTags None s.
Proof. now destruct s. Qed.

(** X14: the stripped text holds no tag: no [<] of it has a [>] after it;
    hence stripping a second time changes nothing. *)
Theorem stripHtml_leaves_no_tag (html : option string) :
  (forall a b, stripHtml html = a +:+ String "<" b -> occurs ">" b = false)
  /\ stripHtml (Some (stripHtml html)) = stripHtml html.
Proof.
  assert (forall a b, stripHtml html = a +:+ String "<" b -> occurs ">" b = false)
    as Hno.
  { intros a b. destruct html as [s|]; [| destruct a; discriminate].
    rewrite stripHtml_stripTags. now apply (stripTags_no_tag_left (String.length s)). }
  split; [exact Hno |].
  rewrite stripHtml_stripTags. now apply stripTags_fixed.
Qed.

(** The table of [escapeChar], case by case. *)
Lemma escapeChar_cases (c : ascii) :
  (c = "&"%char /\ escapeChar c = "&amp;")
  \/ (c = "<"%char /\ escapeChar c = "&lt;")
  \/ (c = ">"%char /\ escapeChar c = "&gt;")
  \/ (c = dquote /\ escapeChar c = "&quot;")
  \/ (c = "'"%char /\ escapeChar c = "&#039;")
  \/ (isSpecial c = false /\ escapeChar c = String c "").
Proof.
  destruct (isSpecial c) eqn:E.
  - unfold isSpecial in E. rewrite !orb_true_iff, !Ascii.eqb_eq in E.
    destruct E as [[[[->| ->]| ->]| ->]| ->]; auto 10.
  - do 5 right. split; [reflexivity | now apply escapeChar_plain].
Qed.

(** The entities and the plain characters form a prefix code. *)
Lemma escapeChar_head (c1 c2 : ascii) (r1 r2 : string) :
  escapeChar c1 +:+ r1 = escapeChar c2 +:+ r2 -> c1 = c2 /\ r1 = r2.
Proof.
  destruct (escapeChar_cases c1)
    as [[-> ->]|[[-> ->]|[[-> ->]|[[-> ->]|[[-> ->]|[H1 ->]]]]]];
  destruct (escapeChar_cases c2)
    as [[-> ->]|[[-> ->]|[[-> ->]|[[-> ->]|[[-> ->]|[H2 ->]]]]]];
  simpl; intros H;
    try (injection H as <-; split; reflexivity);
    try discriminate H;
    try (injection H as -> _; discriminate H1);
    try (injection H as <- _; discriminate H2).
  injection H as -> ->. auto.
Qed.

Lemma escapeChar_nonempty (c : ascii) (r : string) : escapeChar c +:+ r <> "".
Proof.
  destruct (escapeChar_cases c)
    as [[_ ->]|[[_ ->]|[[_ ->]|[[_ ->]|[[_ ->]|[_ ->]]]]]]; discriminate.
Qed.

(** X15: escaping loses nothing: two texts with the same escaped form are the
    same text. *)
Theorem escapeHtml_injective (s1 s2 : string) :
  escapeHtml (Some s1) = escapeHtml (Some s2) -> s1 = s2.
Proof.
  rewrite !escapeHtml_replaceSpecials. revert s2.
  induction s1 as [|c1 s1 IH]; intros [|c2 s2]; simpl; intros H.
  - reflexivity.
  - symmetry in H. now apply escapeChar_nonempty in H.
  - now apply escapeChar_nonempty in H.
  - apply escapeChar_head in H. destruct H as [-> H]. f_equal. now apply IH.
Qed.

Lemma fenceLen_none (s : string) : startsWith s "```" = false -> fenceLen s = 0.
Proof. intros H. unfold fenceLen. now rewrite H. Qed.

Lemma fenceLen_zero (s : string) : fenceLen s = 0 -> startsWith s "```" = false.
Proof.
  unfold fenceLen. destruct (startsWith s "```"); [| reflexivity].
  destruct (startsWith s "```text\"); [destruct (startsWith s "```text\n") |];
    try discriminate.
  destruct (startsWith s "```\"); [destruct (startsWith s "```\n") |]; discriminate.
Qed.

Lemma dropFences_keep (c : ascii) (r : string) :
  startsWith (String c r) "```" = false ->
  dropFences 0 (String c r) = String c (dropFences 0 r).
Proof.
  intros H.
  change (dropFences 0 (String c r))
    with (match fenceLen (String c r) with
          | O => String c (dropFences 0 r)
          | S k => dropFences k r
          end).
  now rewrite (fenceLen_none _ H).
Qed.

Lemma startsWith_cons (c a : ascii) (x q : string) :
  startsWith (String c x) (String a q) = Ascii.eqb a c && startsWith x q.
Proof. reflexivity. Qed.

(** What is kept after a character that is not a backtick starts with no
    backtick; after less than two backticks, with less than two. *)
Lemma dropFences_head1 (s : string) :
  startsWith s "`" = false -> startsWith (dropFences 0 s) "`" = false.
Proof.
  destruct s as [|c r]; [reflexivity |]. intros H.
  rewrite dropFences_keep.
  - rewrite startsWith_cons in *. exact H.
  - rewrite startsWith_cons in *. apply andb_false_iff in H.
    destruct H as [->|H]; [reflexivity | discriminate H].
Qed.

Lemma startsWith_two_ticks (r : string) :
  startsWith r "`" = false -> startsWith r "``" = false.
Proof.
  destruct r as [|d r]; [reflexivity |]. rewrite !startsWith_cons. intros H.
  apply andb_false_iff in H. destruct H as [->|H]; [reflexivity | discriminate H].
Qed.

Lemma dropFences_head2 (s : string) :
  startsWith s "``" = false -> startsWith (dropFences 0 s) "``" = false.
Proof.
  destruct s as [|c r]; [reflexivity |]. intros H.
  rewrite startsWith_cons in H.
  assert (startsWith (String c r) "```" = false) as Hk.
  { rewrite startsWith_cons. destruct (Ascii.eqb "`" c); [| reflexivity].
    rewrite andb_true_l in *. now apply startsWith_two_ticks. }
  rewrite (dropFences_keep c r Hk), startsWith_cons.
  destruct (Ascii.eqb "`" c); [| reflexivity].
  rewrite andb_true_l in *. now apply dropFences_head1.
Qed.

Lemma dropFences_no_fence (s : string) (k : nat) :
  includes (dropFences k s) "```" = false.
Proof.
  revert k. induction s as [|c r IH]; intros k; [reflexivity |].
  destruct k as [|k]; [| apply IH].
  destruct (fenceLen (String c r)) as [|m] eqn:E.
  - apply fenceLen_zero in E. rewrite (dropFences_keep c r E).
    cbn [includes]. rewrite IH, orb_false_r.
    rewrite startsWith_cons in *.
    destruct (Ascii.eqb "`" c); [| reflexivity].
    rewrite andb_true_l in *. now apply dropFences_head2.
  - change (dropFences 0 (String c r))
      with (match fenceLen (String c r) with
            | O => String c (dropFences 0 r)
            | S k => dropFences k r
            end).
    rewrite E. apply IH.
Qed.

Lemma dropFences_plain (s : string) :
  occurs "`" s = false -> dropFences 0 s = s.
Proof.
  induction s as [|c r IH]; [reflexivity |]. simpl occurs.
  intros H. apply orb_false_elim in H. destruct H as [Hc Hr].
  rewrite dropFences_keep.
  - now rewrite (IH Hr).
  - rewrite startsWith_cons. rewrite Ascii.eqb_sym, Hc. reflexivity.
Qed.

(** X16: the cleaned markdown never holds three backticks in a row, and a
    text without backtick is left as it is. *)
Theorem dropFences_removes_every_fence (md : string) :
  includes (dropFences 0 md) "```" = false
  /\ (occurs "`" md = false -> dropFences 0 md = md).
Proof. split; [apply dropFences_no_fence | apply dropFences_plain]. Qed.

Lemma stripHtml_leaves_no_tag_witness :
  stripHtml (Some "a <x<y> b < c") = "a  b " +:+ String "<" " c"
  /\ occurs ">" " c" = false.
Proof.
  split; [reflexivity |].
  apply (proj1 (stripHtml_leaves_no_tag (Some "a <x<y> b < c")) "a  b " " c").
  reflexivity.
Defined.

Lemma escapeHtml_injective_witness :
  escapeHtml (Some ("a<" +:+ "b")) = escapeHtml (Some ("a" +:+ "<b"))
  /\ "a<" +:+ "b" = "a" +:+ "<b".
Proof.
  split; [reflexivity |].
  apply (escapeHtml_injective ("a<" +:+ "b") ("a" +:+ "<b")). reflexivity.
Defined.

Lemma dropFences_removes_every_fence_witness :
  occurs "`" "plain text" = false /\ dropFences 0 "plain text" = "plain text".
Proof.
  split; [reflexivity |].
  apply (proj2 (dropFences_removes_every_fence "plain text")). reflexivity.
Defined.

(** ** The panel and a pending question *)

Section PanelAndQuestion.

Variable clock : nat -> string.

(** X17: the progress notice of [analyze] holds the path, so a path with the
    word Thinking or spinner makes the notice match the pending test.  When
    the file is analyzed while a question is pending, the answer to the
    question lands on that notice, and the placeholder of the question is
    left as it is. *)
Theorem analyze_notice_takes_the_answer (q p x : string) (data : AskResponse)
    (c : Chat) :
  q <> "" ->
  sending c = false ->
  answer data = Some x ->
  x <> "" ->
  includes p "Thinking" = true \/ includes p "spinner" = true ->
  exists c',
    sendQuery_settle clock (length (signals c)) (Resolved data)
      (analyze_begin clock (Some p) (sendQuery_begin clock q c)) = Some c'
    /\ messages (store c') =
         messages (store c) ++
         [{| role := user; content := userMarkup q;
             time := Some (clock (tick c)) |};
          {| role := assistant; content := placeholderMarkup;
             time := Some (clock (tick c + 1)) |};
          {| role := assistant; content := answerMarkup x;
             time := Some (clock (tick c + 1 + 1 + 1)) |}]
         ++ markdownMessages data (clock (tick c + 1 + 1 + 1 + 1)).
Proof.
  intros Hq Hs Hx Hne Hp.
  rewrite (sendQuery_begin_accepted clock q c Hq Hs).
  unfold analyze_begin, sendQuery_settle, onResolved.
  rewrite Hx, (truthy_nonempty x Hne).
  rewrite (doReplaceLastAssistant_found clock _ _
             (messages (store c) ++
              [{| role := user; content := userMarkup q;
                  time := Some (clock (tick c)) |};
               {| role := assistant; content := placeholderMarkup;
                  time := Some (clock (tick c + 1)) |}])
             []
             {| role := assistant; content := analyzingNotice (Some p);
                time := Some (clock (tick c + 1 + 1)) |}).
  - simpl. eexists. split; [reflexivity |]. simpl.
    unfold markdownMessages.
    destruct (markdown data) as [md|]; [destruct (truthy md) |]; simpl;
      rewrite <- ?app_assoc; simpl; rewrite ?app_nil_r; reflexivity.
  - reflexivity.
  - apply (isPending_marker_word _ "<div class='muted'>Analyzing " p "…</div>" Hp).
  - constructor.
Qed.

End PanelAndQuestion.

Lemma analyze_notice_takes_the_answer_witness :
  "where is the budget?" <> ""
  /\ sending (initChat "tinyllama") = false
  /\ answer fullAnswer = Some "See budget.xlsx"
  /\ "See budget.xlsx" <> ""
  /\ (includes "C:\spinner\notes.txt" "Thinking" = true
      \/ includes "C:\spinner\notes.txt" "spinner" = true)
  /\ exists c',
       sendQuery_settle sampleClock 0 (Resolved fullAnswer)
         (analyze_begin sampleClock (Some "C:\spinner\notes.txt") pendingChat)
         = Some c'
       /\ messages (store c') !! 2 =
            Some {| role := assistant; content := placeholderMarkup;
                    time := Some "10:15:01" |}
       /\ messages (store c') !! 3 =
            Some {| role := assistant; content := "<div>See budget.xlsx</div>";
                    time := Some "10:15:01" |}.
Proof.
  split; [discriminate |]. split; [reflexivity |]. split; [reflexivity |].
  split; [discriminate |]. split; [right; reflexivity |].
  destruct (analyze_notice_takes_the_answer sampleClock "where is the budget?"
              "C:\spinner\notes.txt" "See budget.xlsx" fullAnswer
              (initChat "tinyllama")
              ltac:(discriminate) eq_refl eq_refl ltac:(discriminate)
              (or_intror eq_refl))
    as (c' & Hc' & Hm).
  exists c'. split; [exact Hc' |]. rewrite Hm. split; reflexivity.
Defined.

(** ** The states a session can reach *)

Lemma map_filter_elem_of (k ctl : nat) (l : list Request) :
  k ∈ map req_signal l -> k <> ctl ->
  k ∈ map req_signal
        (List.filter (fun r => negb (Nat.eqb (req_signal r) ctl)) l).
Proof.
  rewrite !list_elem_of_In, !in_map_iff. intros (r & <- & Hr) Hne.
  exists r. split; [reflexivity |]. apply filter_In. split; [exact Hr |].
  now destruct (Nat.eqb_spec (req_signal r) ctl).
Qed.

Lemma map_filter_NoDup (ctl : nat) (l : list Request) :
  NoDup (map req_signal l) ->
  NoDup (map req_signal
           (List.filter (fun r => negb (Nat.eqb (req_signal r) ctl)) l)).
Proof.
  induction l as [|r l IH]; simpl; intros H; [constructor |].
  apply NoDup_cons in H. destruct H as [Hr Hl].
  destruct (negb (Nat.eqb (req_signal r) ctl)); simpl; [| auto].
  apply NoDup_cons. split; [| auto].
  intros Hin. apply Hr. rewrite list_elem_of_In, in_map_iff in *.
  destruct Hin as (r' & E & Hr'). exists r'. split; [exact E |].
  apply filter_In in Hr'. tauto.
Qed.

Lemma filter_Forall_signals (ctl n : nat) (l : list Request) :
  Forall (fun r => req_signal r < n) l ->
  Forall (fun r => req_signal r < n)
    (List.filter (fun r => negb (Nat.eqb (req_signal r) ctl)) l).
Proof.
  induction 1 as [|r l Hr Hl IH]; simpl; [constructor |].
  destruct (negb (Nat.eqb (req_signal r) ctl)); [constructor |]; auto.
Qed.

Section Reachable.

Variable clock : nat -> string.

Lemma sessionInvariant_step (c c' : Chat) :
  chat_step clock c c' -> sessionInvariant c -> sessionInvariant c'.
Proof.
  intros Hstep Hinv.
  pose proof Hinv as [(Hwf & Hnd & Hlive & Hfl & Hnd') Hsend].
  destruct Hstep as [q c|controller o c c' Hin Hsettle|c|r m c|i m c|c|v c|v c].
  - (* a submission *)
    unfold sendQuery_begin.
    destruct (negb (truthy q) || sending c) eqn:Hg; [exact Hinv |].
    unfold wellFormed in Hwf.
    assert (length (signals c) ∉ abortRef c) as Hfresh.
    { intros H. rewrite Forall_forall in Hwf. specialize (Hwf _ H). lia. }
    assert (length (signals c) ∉ map req_signal (inflight c)) as Hfresh'.
    { rewrite list_elem_of_In, in_map_iff. intros (r & E & Hr).
      rewrite List.Forall_forall in Hfl. specialize (Hfl r Hr). lia. }
    split; [| simpl; intros _ H; apply app_eq_nil in H; destruct H; discriminate].
    unfold consistent, wellFormed. simpl. rewrite length_app. simpl.
    repeat split.
    + apply Forall_app. split.
      * eapply Forall_impl; [exact Hwf |]. simpl. intros; lia.
      * repeat constructor. lia.
    + apply NoDup_app. repeat split; [exact Hnd | | apply NoDup_singleton].
      intros k Hk Hk'. apply list_elem_of_singleton in Hk'. congruence.
    + apply elem_of_app in H. destruct H as [H|H].
      * rewrite lookup_app_l by (rewrite Forall_forall in Hwf; now apply Hwf).
        now apply Hlive.
      * apply list_elem_of_singleton in H. subst k.
        now rewrite list_lookup_middle.
    + rewrite map_app. apply elem_of_app in H. rewrite elem_of_app.
      destruct H as [H|H]; [left; now apply Hlive |].
      right. simpl. exact H.
    + apply Forall_app. split.
      * eapply Forall_impl; [exact Hfl |]. simpl. intros; lia.
      * repeat constructor. simpl. lia.
    + rewrite map_app. simpl.
      apply NoDup_app. repeat split; [exact Hnd' | | apply NoDup_singleton].
      intros k Hk Hk'. apply list_elem_of_singleton in Hk'. congruence.
  - (* the settling of a request *)
    destruct (sendQuery_settle_result clock controller o c)
      as (c2 & Hc2 & Hs & _ & _ & Hab & Hsg & Hinf & _).
    rewrite Hsettle in Hc2. injection Hc2 as <-.
    split; [| rewrite Hs; discriminate].
    unfold consistent, wellFormed. rewrite Hab, Hsg, Hinf.
    destruct (removeFirst_NoDup controller _ Hnd) as [Hnd2 Hgone].
    repeat split.
    + now apply removeFirst_Forall.
    + exact Hnd2.
    + apply Hlive. eapply removeFirst_elem_of, H.
    + apply map_filter_elem_of.
      * apply Hlive. eapply removeFirst_elem_of, H.
      * intros ->. contradiction.
    + now apply filter_Forall_signals.
    + now apply map_filter_NoDup.
  - (* the Cancel button *)
    split; [| simpl; discriminate].
    unfold consistent, wellFormed. simpl. rewrite fold_abort_length.
    repeat split; try assumption.
    + constructor.
    + apply NoDup_nil_2.
    + inversion H.
    + inversion H.
  - exact Hinv.
  - exact Hinv.
  - exact Hinv.
  - exact Hinv.
  - exact Hinv.
Qed.

(** X19: in every state a session reaches from its start, the controller
    list holds distinct controllers that are not aborted and whose requests
    are in flight; so the Cancel button, shown when the list is not empty,
    is shown only while a request is in flight, and the sending flag is
    never set with no request in flight. *)
Theorem session_states_are_consistent (model : string) (c : Chat) :
  chat_steps clock (initChat model) c ->
  consistent c
  /\ (abortRef c <> [] -> inflight c <> [])
  /\ (sending c = true -> inflight c <> []).
Proof.
  intros Hreach.
  assert (sessionInvariant c) as [Hc Hs].
  { remember (initChat model) as c0 eqn:E0.
    induction Hreach as [c|c1 c2 c3 _ IH Hstep].
    - subst c. split; [| discriminate].
      unfold consistent, wellFormed. simpl.
      repeat split; try constructor; try apply NoDup_nil_2; inversion H.
    - apply (sessionInvariant_step c2 c3 Hstep). now apply IH. }
  split; [exact Hc |]. split; [| exact Hs].
  destruct Hc as (_ & _ & Hlive & _).
  intros Hne Hnil.
  destruct (abortRef c) as [|k l]; [congruence |].
  destruct (Hlive k) as [_ Hk]; [left |].
  rewrite Hnil in Hk. inversion Hk.
Qed.

End Reachable.

Lemma session_states_are_consistent_witness :
  chat_steps sampleClock (initChat "tinyllama") pendingChat
  /\ consistent pendingChat
  /\ inflight pendingChat <> [].
Proof.
  assert (chat_steps sampleClock (initChat "tinyllama") pendingChat) as H.
  { eapply chat_steps_then; [apply chat_steps_refl |].
    apply (chat_submit sampleClock "where is the budget?"). }
  split; [exact H |].
  destruct (session_states_are_consistent sampleClock "tinyllama" pendingChat H)
    as (Hc & Hab & _).
  split; [exact Hc |]. apply Hab. discriminate.
Defined.
